(** * PlanNavigator: the tag indexer of [tools/extract_tags.py]

    A shallow embedding of the script that scans a construction-plan PDF for
    drawing tags such as [01/AC501] and builds the index written to
    [index.json], followed by the properties of it that are established.

    Text is a [string] over an alphabet of 256 characters, each standing for
    one Unicode code point ([Chars.codepoint]).  The codes 0..127 and
    133..255 stand for the code points of the same number.  The codes
    128..132 stand, in place of five control characters, for characters from
    beyond U+00FF that the tag pattern tells apart from all of these: the
    four letters that [[A-Z]] matches under [re.IGNORECASE] besides [a-z] and
    [A-Z] (U+0130, U+0131, U+017F and U+212A), and a decimal digit that is not
    one of [0-9] (U+0660).  The character classes used by the regular
    expression, by [str.strip], by [str.split] and by [str.upper] are the
    ones Python 3 assigns to these code points.  The PDF library (PyMuPDF)
    is a collaborator: a document is the data its calls return, and every
    call may raise. *)

From Stdlib Require Import ZArith Ascii String List Bool Lia.
From stdpp Require Import base option list gmap strings pretty sorting.

Set Warnings "-clear-no-such-hyp".

(** ** Characters *)

Module Chars.

Definition code (c : ascii) : nat := nat_of_ascii c.

Definition in_range (lo hi : nat) (c : ascii) : bool :=
  (lo <=? code c)%nat && (code c <=? hi)%nat.

(** The code point a character stands for. *)
Definition codepoint (c : ascii) : N :=
  if (code c =? 128)%nat then 0x130%N        (* LATIN CAPITAL LETTER I WITH DOT ABOVE *)
  else if (code c =? 129)%nat then 0x131%N   (* LATIN SMALL LETTER DOTLESS I *)
  else if (code c =? 130)%nat then 0x17F%N   (* LATIN SMALL LETTER LONG S *)
  else if (code c =? 131)%nat then 0x212A%N  (* KELVIN SIGN *)
  else if (code c =? 132)%nat then 0x660%N   (* ARABIC-INDIC DIGIT ZERO *)
  else N.of_nat (code c).

(** The characters of ASCII. *)
Definition is_ascii (c : ascii) : bool := (code c <? 128)%nat.

(** [\d] on a [str] pattern: the decimal digits (category Nd), which are
    [0-9] and, in this alphabet, U+0660. *)
Definition is_digit (c : ascii) : bool :=
  in_range 48 57 c || (code c =? 132)%nat.

(** [[A-Z]] under [re.IGNORECASE]: both cases of the 26 letters, and the
    four further letters whose case folding is one of them (U+0130 and
    U+0131 for [i], U+017F for [s], U+212A for [k]). *)
Definition is_letter (c : ascii) : bool :=
  in_range 65 90 c || in_range 97 122 c || in_range 128 131 c.

(** [[A-Z]] without the flag. *)
Definition is_upper_letter (c : ascii) : bool := in_range 65 90 c.

(** [\w] on a [str] pattern: alphanumeric (in the sense of [str.isalnum])
    or the underscore. *)
Definition is_word (c : ascii) : bool :=
  in_range 48 57 c || in_range 65 90 c || (code c =? 95)%nat
  || in_range 97 122 c || in_range 128 132 c
  || (code c =? 170)%nat || in_range 178 179 c
  || (code c =? 181)%nat || in_range 185 186 c || in_range 188 190 c
  || in_range 192 214 c || in_range 216 246 c || in_range 248 255 c.

(** [str.isspace], the class used by [strip()] and [split()]. *)
Definition is_space (c : ascii) : bool :=
  in_range 9 13 c || in_range 28 32 c || (code c =? 133)%nat
  || (code c =? 160)%nat.

(** [str.upper] on one character.  U+0131 becomes [I] and U+017F becomes
    [S]; U+0130, U+212A and U+0660 are their own upper case.  The three
    characters of the alphabet whose upper case lies outside it (U+00B5,
    U+00DF, U+00FF) are left as they are; [upper] is only ever applied to
    matched tag text, which has none of them. *)
Definition upper_char (c : ascii) : ascii :=
  if (code c =? 129)%nat then "I"%char
  else if (code c =? 130)%nat then "S"%char
  else if in_range 97 122 c || in_range 224 246 c || in_range 248 254 c
  then ascii_of_nat (code c - 32) else c.

Definition slash : ascii := "/"%char.

End Chars.

Import Chars.

(** ** Strings as Python uses them *)

(** [s.upper()] *)
Fixpoint upper (s : string) : string :=
  match s with
  | EmptyString => EmptyString
  | String c s' => String (upper_char c) (upper s')
  end.

(** [len(s)] *)
Definition len (s : string) : Z := Z.of_nat (String.length s).

(** One bound of a slice, as [s[a:b]] resolves it: a negative index counts
    from the end, and the result is clamped to [0 .. len(s)]. *)
Definition slice_index (n : Z) (i : Z) : Z :=
  let i' := if (i <? 0)%Z then (i + n)%Z else i in
  Z.max 0 (Z.min n i').

(** [s[a:b]] *)
Definition slice (s : string) (a b : Z) : string :=
  let lo := slice_index (len s) a in
  let hi := slice_index (len s) b in
  String.substring (Z.to_nat lo) (Z.to_nat (hi - lo)) s.

(** [s.lstrip()], [s.rstrip()] and [s.strip()] *)
Fixpoint lstrip (s : string) : string :=
  match s with
  | EmptyString => EmptyString
  | String c s' => if is_space c then lstrip s' else s
  end.

Fixpoint rstrip (s : string) : string :=
  match s with
  | EmptyString => EmptyString
  | String c s' =>
      match rstrip s' with
      | EmptyString => if is_space c then EmptyString else String c EmptyString
      | r => String c r
      end
  end.

Definition strip (s : string) : string := rstrip (lstrip s).

(** [s.split()] with no separator: the maximal runs of characters that are
    not whitespace, in order; never an empty string. *)
Fixpoint split (s : string) : list string :=
  match s with
  | EmptyString => []
  | String c s' =>
      if is_space c then split s'
      else match s' with
           | EmptyString => [String c EmptyString]
           | String c' _ =>
               if is_space c' then String c EmptyString :: split s'
               else match split s' with
                    | t :: ts => String c t :: ts
                    | [] => [String c EmptyString]
                    end
           end
  end.

(** [sep.join(parts)] *)
Fixpoint join (sep : string) (parts : list string) : string :=
  match parts with
  | [] => EmptyString
  | [t] => t
  | t :: ts => t +:+ sep +:+ join sep ts
  end.

(** ** The tag pattern

    [TAG_PATTERN = re.compile(r'\b(\d{2}/[A-Z]{2}\d{3,4})\b', re.IGNORECASE)] *)

(** A match object: [m.start()], [m.end()] and the matched text.  The only
    group of the pattern spans the whole match, the two [\b] being of width
    zero, so [m.group(0)] and [m.group(1)] are the same text. *)
Record Match := mkMatch { m_start : nat; m_end : nat; m_text : string }.

Definition group0 (m : Match) : string := m_text m.
Definition group1 (m : Match) : string := m_text m.

(** [\b]: exactly one of the two neighbouring positions holds a word
    character; beyond either end of the text there is none. *)
Definition boundary (before after : bool) : bool := xorb before after.

Definition head_is_word (s : string) : bool :=
  match s with String c _ => is_word c | EmptyString => false end.

(** The pattern tried at one position: [before] tells whether the character
    just before the position is a word character, [s] is the text from the
    position on.  The answer is the length of the match.  [\d{3,4}] is
    greedy: a fourth digit is taken when there is one, and given back when
    the closing [\b] fails after it. *)
Definition match_here (before : bool) (s : string) : option nat :=
  if boundary before (head_is_word s) then
    match s with
    | String d1 (String d2 (String sl (String l1 (String l2
        (String d3 (String d4 (String d5 rest))))))) =>
        if is_digit d1 && is_digit d2 && Ascii.eqb sl slash
           && is_letter l1 && is_letter l2
           && is_digit d3 && is_digit d4 && is_digit d5
        then
          match rest with
          | String d6 rest' =>
              if is_digit d6 && boundary (is_word d6) (head_is_word rest')
              then Some 9
              else if boundary (is_word d5) (head_is_word rest)
                   then Some 8 else None
          | EmptyString =>
              if boundary (is_word d5) false then Some 8 else None
          end
        else None
    | _ => None
    end
  else None.

(** [TAG_PATTERN.finditer(text)]: the matches from left to right, each search
    resuming where the previous match ended.  [pos] is the position of [s] in
    the text and [skip] the number of characters still covered by the last
    match. *)
Fixpoint scan (before : bool) (pos skip : nat) (s : string) : list Match :=
  match s with
  | EmptyString => []
  | String c s' =>
      match skip with
      | S k => scan (is_word c) (S pos) k s'
      | O =>
          match match_here before s with
          | Some n =>
              mkMatch pos (pos + n) (String.substring 0 n s)
                :: scan (is_word c) (S pos) (n - 1) s'
          | None => scan (is_word c) (S pos) 0 s'
          end
      end
  end.

Definition finditer (text : string) : list Match := scan false 0 0 text.

(** ** Snippets *)

Definition default_context_chars : Z := 50.

(** [extract_snippet(text, start, end, context_chars)] *)
Definition extract_snippet (text : string) (start end_ : Z)
    (context_chars : Z) : string :=
  let snippet_start := Z.max 0 (start - context_chars) in
  let snippet_end := Z.min (len text) (end_ + context_chars) in
  let snippet := strip (slice text snippet_start snippet_end) in
  let snippet := join " " (split snippet) in
  let snippet := if (snippet_start >? 0)%Z then "..." +:+ snippet else snippet in
  let snippet := if (snippet_end <? len text)%Z then snippet +:+ "..." else snippet in
  snippet.

(** ** Paths

    [pathlib.Path] in its POSIX flavour, as far as the script uses it. *)

Module PosixPath.

(** [s.split(sep)] with a separator: empty parts are kept. *)
Fixpoint split_on (sep : ascii) (s : string) : list string :=
  match s with
  | EmptyString => [EmptyString]
  | String c s' =>
      if Ascii.eqb c sep then EmptyString :: split_on sep s'
      else match split_on sep s' with
           | t :: ts => String c t :: ts
           | [] => [String c EmptyString]
           end
  end.

Definition is_slash (c : ascii) : bool := Ascii.eqb c "/".

Definition starts_with_slash (p : string) : bool :=
  match p with String c _ => is_slash c | EmptyString => false end.

(** The root of a path and what follows it: one leading slash, or exactly
    two, which POSIX keeps apart; of three or more, one is the root. *)
Definition splitroot (p : string) : string * string :=
  match p with
  | String c1 r1 =>
      if is_slash c1 then
        match r1 with
        | String c2 r2 =>
            if is_slash c2 then
              if starts_with_slash r2 then ("/", r1) else ("//", r2)
            else ("/", r1)
        | EmptyString => ("/", r1)
        end
      else ("", p)
  | EmptyString => ("", p)
  end.

Definition is_part (x : string) : bool :=
  negb (String.eqb x "") && negb (String.eqb x ".").

Definition tail (p : string) : list string :=
  filter (λ x, is_part x = true) (split_on "/" (splitroot p).2).

(** [str(Path(p))] *)
Definition to_str (p : string) : string :=
  let r := (splitroot p).1 +:+ join "/" (tail p) in
  if String.eqb r "" then "." else r.

(** [Path(p).name] *)
Definition name (p : string) : string := List.last (tail p) "".

(** [Path(a) / b], the joining of two path strings: an absolute [b] stands
    alone, and a slash is put between the two unless [a] ends in one. *)
Fixpoint ends_with_slash (a : string) : bool :=
  match a with
  | EmptyString => false
  | String c EmptyString => is_slash c
  | String _ a' => ends_with_slash a'
  end.

Definition joinpath (a b : string) : string :=
  if starts_with_slash b then b
  else if String.eqb a "" || ends_with_slash a then a +:+ b
  else a +:+ "/" +:+ b.

(** [Path(p).absolute()] from the working directory [cwd] *)
Definition absolute (cwd p : string) : string :=
  if String.eqb (splitroot p).1 "" then to_str (joinpath cwd p)
  else to_str p.

End PosixPath.

(** ** Exceptions *)

Inductive exn :=
  | FileNotFoundError (msg : string)
  | OtherError (msg : string).

(** [str(e)] *)
Definition exn_str (e : exn) : string :=
  match e with FileNotFoundError m | OtherError m => m end.

Inductive result (A : Type) :=
  | Ok (a : A)
  | Raise (e : exn).
Arguments Ok {A} a.
Arguments Raise {A} e.

Definition rbind {A B} (r : result A) (k : A → result B) : result B :=
  match r with Ok a => k a | Raise e => Raise e end.

(** A [for] loop whose body may raise. *)
Fixpoint for_each {A B} (body : A → B → result A) (l : list B) (a : A) : result A :=
  match l with
  | [] => Ok a
  | b :: l' => rbind (body a b) (for_each body l')
  end.

Section Indexer.

(** The floating-point coordinates of the PDF library and [round(x, 2)]. *)
Context {coord : Type} (round2 : coord → coord).

(** *** The PDF collaborator *)

Record Rect := mkRect { x0 : coord; y0 : coord; x1 : coord; y1 : coord }.

(** A page: what [page.get_text("text")] and [page.search_for(needle)]
    return. *)
Record Page := mkPage {
  get_text : result string;
  search_for : string → result (list Rect)
}.

(** A document: what [doc[i]] returns for each page number. *)
Record Document := mkDocument { doc_pages : list (result Page) }.

Definition doc_len (doc : Document) : nat := length (doc_pages doc).

Definition load_page (doc : Document) (i : nat) : result Page :=
  match doc_pages doc !! i with
  | Some r => r
  | None => Raise (OtherError "page not in document")
  end.

(** *** The index *)

Record Occurrence := mkOccurrence { page : nat; snippet : string; bbox : Rect }.

(** The dictionary returned by [extract_tags_from_pdf]; the order of the
    keys of [tags] is not part of the model. *)
Record Index := mkIndex {
  pdf_file : string;
  total_pages : nat;
  total_tags : nat;
  tags : gmap string (list Occurrence)
}.

(** *** The world: file system, output streams, document handles *)

(** What a path holds: a PDF that the library opens as [doc], an index
    written by [save_index], or anything else that exists but is no PDF (a
    directory, a file of another kind). *)
Inductive File :=
  | PdfFile (doc : Document)
  | IndexFile (index : Index)
  | OtherFile.

Inductive HandleEvent :=
  | Opened (path : string)
  | Closed (path : string).

(** The file system: the files, each under the name by which the operating
    system knows it, and the resolution of an absolute path to that name
    (through [..] components and links).  Two paths are the same file when
    they resolve alike.  Reading and writing at a path go through the
    resolution. *)
Record FileSystem := mkFileSystem {
  store : gmap string File;
  resolve : string → string
}.

Definition same_file (fs : FileSystem) (p q : string) : Prop :=
  resolve fs p = resolve fs q.

Global Instance fs_lookup : Lookup string File FileSystem :=
  λ p fs, store fs !! resolve fs p.

Global Instance fs_insert : Insert string File FileSystem :=
  λ p f fs, mkFileSystem (<[resolve fs p := f]> (store fs)) (resolve fs).

Record World := mkWorld {
  files : FileSystem;
  cwd : string;
  writable : string → bool;
  stdout : list string;
  stderr : list string;
  handles : list HandleEvent
}.

(** Computations that read and change the world and may raise. *)
Definition M (A : Type) : Type := World → result A * World.

Definition ret {A} (a : A) : M A := λ w, (Ok a, w).
Definition raise {A} (e : exn) : M A := λ w, (Raise e, w).
Definition bind {A B} (c : M A) (k : A → M B) : M B :=
  λ w, match c w with
       | (Ok a, w') => k a w'
       | (Raise e, w') => (Raise e, w')
       end.
Definition lift {A} (r : result A) : M A := λ w, (r, w).

Notation "'let*' x := c 'in' k" := (bind c (λ x, k))
  (at level 10, x name, c at level 100, k at level 200).
Notation "c >>> k" := (bind c (λ _, k))
  (at level 100, right associativity).

(** [print(line)] and [print(line, file=sys.stderr)] *)
Definition print (line : string) : M unit :=
  λ w, (Ok tt, mkWorld (files w) (cwd w) (writable w)
                  (stdout w ++ [line]) (stderr w) (handles w)).
Definition print_err (line : string) : M unit :=
  λ w, (Ok tt, mkWorld (files w) (cwd w) (writable w)
                  (stdout w) (stderr w ++ [line]) (handles w)).

Definition log_handle (ev : HandleEvent) : M unit :=
  λ w, (Ok tt, mkWorld (files w) (cwd w) (writable w)
                  (stdout w) (stderr w) (handles w ++ [ev])).

(** [Path(p).exists()] *)
Definition path_exists (p : string) (w : World) : bool :=
  bool_decide (is_Some (files w !! PosixPath.absolute (cwd w) p)).

(** [fitz.open(p)] *)
Definition fitz_open (p : string) : M Document :=
  λ w, match files w !! PosixPath.absolute (cwd w) p with
       | Some (PdfFile doc) => log_handle (Opened (PosixPath.to_str p)) >>> ret doc
       | Some _ => raise (OtherError ("Failed to open file '" +:+ PosixPath.to_str p +:+ "'."))
       | None => raise (OtherError ("no such file: '" +:+ PosixPath.to_str p +:+ "'"))
       end w.

(** [doc.close()] *)
Definition doc_close (p : string) : M unit := log_handle (Closed (PosixPath.to_str p)).

(** *** The page scan *)

(** The two accumulators of the scan. *)
Record Acc := mkAcc {
  tag_occurrences : gmap string (list Occurrence);
  all_tags : gset string
}.

Definition round_rect (rect : Rect) : Rect :=
  mkRect (round2 (x0 rect)) (round2 (y0 rect)) (round2 (x1 rect)) (round2 (y1 rect)).

(** The body of [for rect in text_instances]. *)
Definition rect_body (text : string) (page_num : nat) (m : Match) (tag : string)
    (occs : gmap string (list Occurrence)) (rect : Rect)
    : gmap string (list Occurrence) :=
  let snippet :=
    extract_snippet text (Z.of_nat (m_start m)) (Z.of_nat (m_end m))
      default_context_chars in
  let occurrence := mkOccurrence (page_num + 1) snippet (round_rect rect) in
  let occs :=
    match occs !! tag with
    | None => <[tag := []]> occs
    | Some _ => occs
    end in
  alter (λ l, l ++ [occurrence]) tag occs.

(** The body of [for match in matches]. *)
Definition match_body (pg : Page) (text : string) (page_num : nat)
    (acc : Acc) (m : Match) : result Acc :=
  let tag := upper (group1 m) in
  let all := {[tag]} ∪ all_tags acc in
  rbind (search_for pg (group0 m)) (λ text_instances,
    Ok (mkAcc (fold_left (rect_body text page_num m tag) text_instances
                 (tag_occurrences acc))
              all)).

(** The body of [for page_num in range(num_pages)]. *)
Definition page_body (doc : Document) (acc : Acc) (page_num : nat) : result Acc :=
  rbind (load_page doc page_num) (λ pg,
  rbind (get_text pg) (λ text,
    for_each (match_body pg text page_num) (finditer text) acc)).

Definition scan_pages (doc : Document) (num_pages : nat) : result Acc :=
  for_each (page_body doc) (seq 0 num_pages) (mkAcc ∅ ∅).

(** [sum(len(v) for v in d.values())] *)
Definition total_occurrences (d : gmap string (list Occurrence)) : nat :=
  sum_list (length <$> (map_to_list d).*2).

(** *** [extract_tags_from_pdf(pdf_path)] *)
Definition extract_tags_from_pdf (pdf_path : string) : M Index :=
  λ w,
  if negb (path_exists pdf_path w)
  then raise (FileNotFoundError ("PDF file not found: " +:+ PosixPath.to_str pdf_path)) w
  else
    (let* doc := fitz_open pdf_path in
     let num_pages := doc_len doc in
     print ("Scanning " +:+ pretty num_pages +:+ " pages in '"
            +:+ PosixPath.name pdf_path +:+ "'...") >>>
     let* acc := lift (scan_pages doc num_pages) in
     doc_close pdf_path >>>
     let index :=
       mkIndex (PosixPath.name pdf_path) num_pages (size (all_tags acc))
         (tag_occurrences acc) in
     print ("Found " +:+ pretty (size (all_tags acc)) +:+ " unique tags with "
            +:+ pretty (total_occurrences (tag_occurrences acc))
            +:+ " total occurrences") >>>
     ret index) w.

(** *** [save_index(index, output_path)]

    The JSON text written is represented by the index it encodes. *)
Definition save_index (index : Index) (output_path : string) : M unit :=
  λ w,
  let target := PosixPath.absolute (cwd w) output_path in
  if writable w target then
    print ("Index saved to: " +:+ PosixPath.to_str output_path)
      (mkWorld (<[target := IndexFile index]> (files w)) (cwd w) (writable w)
         (stdout w) (stderr w) (handles w))
  else
    raise (OtherError ("[Errno 13] Permission denied: '"
                       +:+ PosixPath.to_str output_path +:+ "'")) w.

(** *** [main()] after the arguments are parsed *)

Record Args := mkArgs { arg_pdf_file : string; arg_output : string }.

Definition run (args : Args) : M unit :=
  let* index := extract_tags_from_pdf (arg_pdf_file args) in
  let output_path := arg_output args in
  save_index index output_path >>>
  print (String (ascii_of_nat 10) "Extraction complete!") >>>
  print ("  Tags found: " +:+ pretty (total_tags index)) >>>
  print ("  Total occurrences: " +:+ pretty (total_occurrences (tags index))) >>>
  λ w, print ("  Output: " +:+ PosixPath.absolute (cwd w) output_path) w.

(** The exit status and the world the process leaves behind. *)
Definition main (args : Args) (w : World) : nat * World :=
  match run args w with
  | (Ok _, w') => (0, w')
  | (Raise e, w') => (1, (print_err ("Error: " +:+ exn_str e) w').2)
  end.

End Indexer.

Arguments Rect : clear implicits.
Arguments Page : clear implicits.
Arguments Document : clear implicits.
Arguments Occurrence : clear implicits.
Arguments Index : clear implicits.
Arguments File : clear implicits.
Arguments FileSystem : clear implicits.
Arguments World : clear implicits.
Arguments Acc : clear implicits.


(** * The specification's notions *)

(** ** Positions in a text *)

Fixpoint sdrop (n : nat) (s : string) : string :=
  match n, s with
  | O, _ => s
  | S k, String _ s' => sdrop k s'
  | S _, EmptyString => EmptyString
  end.

Definition word_at (text : string) (i : nat) : bool :=
  match String.get i text with
  | Some c => is_word c
  | None => false
  end.

(** Whether a word character stands just before position [o], when
    [before] tells it for position 0. *)
Definition before_at (before : bool) (s : string) (o : nat) : bool :=
  match o with
  | O => before
  | S k => word_at s k
  end.

(** Position [i] of [text] is a word boundary. *)
Definition is_boundary (text : string) (i : nat) : bool :=
  xorb (before_at false text i) (word_at text i).

(** ** The shape of a tag

    A whole string of the form [\d{2}/[A-Z]{2}\d{3,4}], the letters as
    [re.IGNORECASE] reads [[A-Z]]. *)
Definition all_chars (p : ascii → bool) (s : string) : bool :=
  forallb p (list_ascii_of_string s).

Definition tag_shape (s : string) : bool :=
  let n := String.length s in
  ((n =? 8)%nat || (n =? 9)%nat)
  && all_chars is_digit (String.substring 0 2 s)
  && String.eqb (String.substring 2 1 s) "/"
  && all_chars is_letter (String.substring 3 2 s)
  && all_chars is_digit (String.substring 5 (n - 5) s).

(** The same shape with upper-case letters only: [\d{2}/[A-Z]{2}\d{3,4}]
    read without [re.IGNORECASE]. *)
Definition tag_shape_upper (s : string) : bool :=
  let n := String.length s in
  ((n =? 8)%nat || (n =? 9)%nat)
  && all_chars is_digit (String.substring 0 2 s)
  && String.eqb (String.substring 2 1 s) "/"
  && all_chars is_upper_letter (String.substring 3 2 s)
  && all_chars is_digit (String.substring 5 (n - 5) s).

(** The substring [text[i:j]] is a tag delimited by word boundaries. *)
Definition is_tag_at (text : string) (i j : nat) : Prop :=
  i ≤ j ≤ String.length text
  ∧ tag_shape (String.substring i (j - i) text) = true
  ∧ is_boundary text i = true
  ∧ is_boundary text j = true.

(** ** File names *)

(** A name that a file can have in a directory: a path component that has no
    slash, is not empty and is not [.]. *)
Definition is_file_name (s : string) : bool :=
  all_chars (λ c, negb (PosixPath.is_slash c)) s && PosixPath.is_part s.

(** ** Snippet windows *)

(** The two edges of the window around a match. *)
Definition window_start (start context_chars : Z) : Z :=
  Z.max 0 (start - context_chars).

Definition window_end (text : string) (end_ context_chars : Z) : Z :=
  Z.min (len text) (end_ + context_chars).

(** The characters of [text] at the positions [a <= i < b]. *)
Definition chars_between (text : string) (a b : Z) : string :=
  String.substring (Z.to_nat a) (Z.to_nat (b - a)) text.

(** Trimming and collapsing in one pass over the text: whitespace before the
    first other character and after the last one is dropped, and every run
    of whitespace in between becomes one space.  [started] tells that a
    character has been kept already, [pending] that a run of whitespace has
    been passed since. *)
Fixpoint squeeze (started pending : bool) (s : string) : string :=
  match s with
  | EmptyString => EmptyString
  | String c s' =>
      if is_space c then squeeze started started s'
      else if pending then String " " (String c (squeeze true false s'))
           else String c (squeeze true false s')
  end.

Definition collapse (s : string) : string := squeeze false false s.

(** The text owed after a run of whitespace: a space and the remaining
    tokens, or nothing when no token remains. *)
Definition owed (s : string) : string :=
  match split s with
  | [] => ""
  | ts => String " " (join " " ts)
  end.

(** No whitespace character occurs in [s]. *)
Definition no_space (s : string) : bool :=
  all_chars (λ c, negb (is_space c)) s.

(** All characters of [s] that are not whitespace, in order. *)
Fixpoint solid_chars (s : string) : string :=
  match s with
  | EmptyString => EmptyString
  | String c s' => if is_space c then solid_chars s' else String c (solid_chars s')
  end.

(** The concatenation of a list of strings. *)
Definition concat_all (parts : list string) : string := join "" parts.

(** A text of 200 characters with a tag at the offsets 100 to 108. *)
Definition sample_line : string := "general notes: see detail ".
Definition text200 : string :=
  Eval vm_compute in
    String.substring 0 100 (sample_line +:+ sample_line +:+ sample_line +:+ sample_line)
    +:+ "01/AC501"
    +:+ String.substring 0 92 (sample_line +:+ sample_line +:+ sample_line +:+ sample_line).

(** A text with tabs, line breaks and doubled spaces around a tag. *)
Definition tab : string := String (ascii_of_nat 9) EmptyString.
Definition nl : string := String (ascii_of_nat 10) EmptyString.
Definition messy_text : string :=
  "note:" +:+ tab +:+ nl +:+ "  see  01/AC501 " +:+ nl +:+ "there ".

(** ** What a document holds *)

Section IndexSpec.

Context {coord : Type}.

(** The normalised tags of a list of matches. *)
Definition tags_of_matches (ms : list Match) : gset string :=
  list_to_set ((upper ∘ group1) <$> ms).

(** The tags the pattern finds in the text of page [i]. *)
Definition page_tags (doc : Document coord) (i : nat) : gset string :=
  match load_page doc i with
  | Ok pg =>
      match get_text pg with
      | Ok text => tags_of_matches (finditer text)
      | Raise _ => ∅
      end
  | Raise _ => ∅
  end.

(** The distinct tags the pattern finds on some page of the document. *)
Definition matched_tags (doc : Document coord) : gset string :=
  ⋃ (page_tags doc <$> seq 0 (doc_len doc)).

(** Every search for a matched text finds at least one rectangle. *)
Definition always_located (doc : Document coord) : Prop :=
  ∀ i pg text m rects,
    doc_pages doc !! i = Some (Ok pg) → get_text pg = Ok text →
    m ∈ finditer text → search_for pg (group0 m) = Ok rects → rects ≠ [].

(** The pattern finds nothing on any page. *)
Definition no_matches (doc : Document coord) : Prop :=
  ∀ i r, doc_pages doc !! i = Some r →
    ∃ pg text, r = Ok pg ∧ get_text pg = Ok text ∧ finditer text = [].

(** The occurrences one match adds for the rectangles found for it. *)
Definition new_occurrences (round2 : coord → coord) (text : string)
    (page_num : nat) (m : Match) (rects : list (Rect coord))
    : list (Occurrence coord) :=
  (λ rect,
     mkOccurrence (page_num + 1)
       (extract_snippet text (Z.of_nat (m_start m)) (Z.of_nat (m_end m))
          default_context_chars)
       (round_rect round2 rect)) <$> rects.

(** The accumulators after one match. *)
Definition after_match (round2 : coord → coord) (text : string)
    (page_num : nat) (m : Match) (rects : list (Rect coord))
    (acc : Acc coord) : Acc coord :=
  mkAcc (fold_left (rect_body round2 text page_num m (upper (group1 m))) rects
           (tag_occurrences acc))
        ({[upper (group1 m)]} ∪ all_tags acc).

(** Every page number of the occurrences lies in [1 .. n]. *)
Definition pages_in_range (n : nat) (occs : gmap string (list (Occurrence coord))) : Prop :=
  ∀ tag l, occs !! tag = Some l → Forall (λ o, 1 ≤ page o ≤ n) l.

(** Every key is an upper-cased tag; its letters are among [A-Z] when it is
    made of ASCII characters. *)
Definition keys_wellformed (occs : gmap string (list (Occurrence coord))) : Prop :=
  ∀ tag, is_Some (occs !! tag) →
    tag_shape tag = true ∧ upper tag = tag
    ∧ (all_chars is_ascii tag = true → tag_shape_upper tag = true).

End IndexSpec.

(** The number of opening and of closing events in a log of handles. *)
Definition is_opened (ev : HandleEvent) : bool :=
  match ev with Opened _ => true | Closed _ => false end.
Definition is_closed (ev : HandleEvent) : bool :=
  match ev with Closed _ => true | Opened _ => false end.
Definition count_opened (log : list HandleEvent) : nat :=
  length (List.filter is_opened log).
Definition count_closed (log : list HandleEvent) : nat :=
  length (List.filter is_closed log).

(** ** Sample documents

    Coordinates are counted in hundredths of a point, so that rounding to
    two decimals leaves them as they are. *)

Definition two_decimals (x : Z) : Z := x.

Definition rect_at (x y : Z) : Rect Z := mkRect x y (x + 4200)%Z (y + 1100)%Z.

Definition plain_world (files : gmap string (File Z)) : World Z :=
  mkWorld (mkFileSystem files id) "/plans" (λ _, true) [] [] [].

(** The three pages of the end-to-end scenario; [search_for] gives one
    rectangle for each place where the text searched for is drawn. *)
Module Scenario.

Definition page1 : Page Z :=
  mkPage (Ok "see detail 01/AC501 for more")
    (λ needle, Ok (if String.eqb needle "01/AC501" then [rect_at 7200 10000]
                   else [])).

Definition page2 : Page Z :=
  mkPage (Ok "general notes") (λ _, Ok []).

Definition page3 : Page Z :=
  mkPage (Ok "01/AC501 03/AC602 01/AC501")
    (λ needle, Ok (if String.eqb needle "01/AC501"
                   then [rect_at 7200 10000; rect_at 19800 10000]
                   else if String.eqb needle "03/AC602"
                        then [rect_at 13500 10000]
                        else [])).

Definition doc : Document Z := mkDocument [Ok page1; Ok page2; Ok page3].

Definition world : World Z := plain_world {[ "/plans/set.pdf" := PdfFile doc ]}.

Definition occ (page_num : nat) (snippet : string) (x : Z) : Occurrence Z :=
  mkOccurrence page_num snippet (rect_at x 10000).

(** What the code returns for it. *)
Definition index : Index Z :=
  mkIndex "set.pdf" 3 2
    {[ "01/AC501" :=
         [ occ 1 "see detail 01/AC501 for more" 7200;
           occ 3 "01/AC501 03/AC602 01/AC501" 7200;
           occ 3 "01/AC501 03/AC602 01/AC501" 19800;
           occ 3 "01/AC501 03/AC602 01/AC501" 7200;
           occ 3 "01/AC501 03/AC602 01/AC501" 19800 ];
       "03/AC602" :=
         [ occ 3 "01/AC501 03/AC602 01/AC501" 13500 ] ]}.

(** The world after the run. *)
Definition after : World Z :=
  (extract_tags_from_pdf two_decimals "set.pdf" world).2.

End Scenario.

(** A page whose text has a tag that the search does not find again. *)
Module Unlocated.

Definition page1 : Page Z := mkPage (Ok "see 01/AC501") (λ _, Ok []).
Definition doc : Document Z := mkDocument [Ok page1].
Definition world : World Z := plain_world {[ "/plans/plan.pdf" := PdfFile doc ]}.
Definition index : Index Z := mkIndex "plan.pdf" 1 1 ∅.

End Unlocated.

(** An encrypted document: it can be opened and has a page count, but
    loading a page raises. *)
Module Locked.

Definition doc : Document Z :=
  mkDocument [Raise (OtherError "document closed or encrypted")].
Definition world : World Z := plain_world {[ "/plans/locked.pdf" := PdfFile doc ]}.

End Locked.

(** Documents without any tag: one with two pages, one with no page. *)
Module Untagged.

Definition page1 : Page Z := mkPage (Ok "general notes") (λ _, Ok []).
Definition page2 : Page Z := mkPage (Ok "sheet 001/AC501 of 01/A501") (λ _, Ok []).
Definition doc : Document Z := mkDocument [Ok page1; Ok page2].
Definition empty_doc : Document Z := mkDocument [].
Definition world : World Z :=
  plain_world {[ "/plans/sets/notes.pdf" := PdfFile doc;
                 "/plans/empty.pdf" := PdfFile empty_doc ]}.

End Untagged.

(** A page whose tag is written with two Kelvin signs (U+212A) for its
    letters. *)
Module Kelvin.

Definition sign : string := String (ascii_of_nat 131) EmptyString.
Definition tag : string := "01/" +:+ sign +:+ sign +:+ "501".
Definition page1 : Page Z :=
  mkPage (Ok ("detail " +:+ tag))
    (λ needle, Ok (if String.eqb needle tag then [rect_at 7200 10000] else [])).
Definition doc : Document Z := mkDocument [Ok page1].
Definition world : World Z := plain_world {[ "/plans/kelvin.pdf" := PdfFile doc ]}.
Definition index : Index Z :=
  mkIndex "kelvin.pdf" 1 1
    {[ tag := [mkOccurrence 1 ("detail " +:+ tag) (rect_at 7200 10000)] ]}.

End Kelvin.

(** ** The occurrences a document gives rise to *)

Section Hits.

Context {coord : Type} (round2 : coord → coord).

(** The entries the loop over the rectangles appends for one match: the key
    and one occurrence for each rectangle of the search, in the order of the
    search. *)
Definition match_hits (pg : Page coord) (text : string) (page_num : nat)
    (m : Match) : list (string * Occurrence coord) :=
  match search_for pg (group0 m) with
  | Ok rects =>
      (λ o, (upper (group1 m), o)) <$> new_occurrences round2 text page_num m rects
  | Raise _ => []
  end.

(** The entries of one page: those of its matches, from left to right. *)
Definition page_hits (doc : Document coord) (page_num : nat)
    : list (string * Occurrence coord) :=
  match load_page doc page_num with
  | Ok pg =>
      match get_text pg with
      | Ok text => finditer text ≫= match_hits pg text page_num
      | Raise _ => []
      end
  | Raise _ => []
  end.

(** The entries of the document: those of its pages, in the order of the
    pages. *)
Definition doc_hits (doc : Document coord) : list (string * Occurrence coord) :=
  seq 0 (doc_len doc) ≫= page_hits doc.

(** The occurrences entered under one key. *)
Definition occurrences_of (tag : string) (hits : list (string * Occurrence coord))
    : list (Occurrence coord) :=
  (filter (λ h, h.1 = tag) hits).*2.

(** A list as a dictionary holds it: no entry for the empty list. *)
Definition nonempty {A} (l : list A) : option (list A) :=
  match l with [] => None | _ => Some l end.

(** Every call to the library that the scan makes returns: each page loads
    and has a text, and the search for each match of the text returns. *)
Definition all_calls_return (doc : Document coord) : Prop :=
  ∀ i, i < doc_len doc →
    ∃ pg text, doc_pages doc !! i = Some (Ok pg) ∧ get_text pg = Ok text
      ∧ ∀ m, m ∈ finditer text → ∃ rects, search_for pg (group0 m) = Ok rects.

End Hits.

(** ** Tidy text *)

(** A text is tidy after a character when each of its whitespace characters
    is a space that does not follow whitespace and the text does not end on
    whitespace; [prev_space] tells whether the character before is
    whitespace. *)
Fixpoint tidy_after (prev_space : bool) (s : string) : bool :=
  match s with
  | EmptyString => negb prev_space
  | String c s' =>
      if is_space c
      then Ascii.eqb c " " && negb prev_space && tidy_after true s'
      else tidy_after false s'
  end.

(** A tidy text: on one line, without whitespace at either end, its words
    separated by single spaces. *)
Definition tidy (s : string) : bool :=
  match s with
  | EmptyString => true
  | _ => tidy_after true s
  end.

(** [t] occurs in [s]. *)
Definition occurs_in (t s : string) : Prop := ∃ pre post, s = pre +:+ t +:+ post.

(** ** Sample runs of the program *)

Definition scenario_args : Args := mkArgs "set.pdf" "index.json".
Definition overwriting_args : Args := mkArgs "set.pdf" "set.pdf".

(** The scenario with a directory [sub] beside the PDF: the path
    [/plans/sub/../set.pdf] names the PDF as well. *)
Module Aliased.

Definition resolve (p : string) : string :=
  if String.eqb p "/plans/sub/../set.pdf" then "/plans/set.pdf" else p.
Definition world : World Z :=
  mkWorld (mkFileSystem {[ "/plans/set.pdf" := PdfFile Scenario.doc ]} resolve)
    "/plans" (λ _, true) [] [] [].
Definition args : Args := mkArgs "set.pdf" "sub/../set.pdf".

End Aliased.

(** ** Pages that fail *)

Section Failing.

Context {coord : Type}.

(** Every call made for page [i] returns. *)
Definition page_returns (doc : Document coord) (i : nat) : Prop :=
  ∃ pg text, doc_pages doc !! i = Some (Ok pg) ∧ get_text pg = Ok text
    ∧ ∀ m, m ∈ finditer text → ∃ rects, search_for pg (group0 m) = Ok rects.

(** Page [i] raises [e] when it is loaded or when its text is asked for. *)
Definition page_raises (doc : Document coord) (i : nat) (e : exn) : Prop :=
  doc_pages doc !! i = Some (Raise e)
  ∨ ∃ pg, doc_pages doc !! i = Some (Ok pg) ∧ get_text pg = Raise e.

End Failing.

(** A document whose second page cannot be read. *)
Module Damaged.

Definition page1 : Page Z :=
  mkPage (Ok "see detail 01/AC501 for more")
    (λ needle, Ok (if String.eqb needle "01/AC501" then [rect_at 7200 10000]
                   else [])).
Definition page2 : Page Z :=
  mkPage (Raise (OtherError "cannot read page")) (λ _, Ok []).
Definition doc : Document Z := mkDocument [Ok page1; Ok page2; Ok page1].
Definition world : World Z := plain_world {[ "/plans/damaged.pdf" := PdfFile doc ]}.
Definition args : Args := mkArgs "damaged.pdf" "index.json".

End Damaged.
(** * Properties *)

(** ** Character classes *)

Section CharFacts.

Local Ltac by_cases c :=
  destruct c as [[] [] [] [] [] [] [] []]; vm_compute; intuition congruence.

Lemma digit_is_word c : is_digit c = true → is_word c = true.
Proof. by_cases c. Qed.

Lemma letter_is_word c : is_letter c = true → is_word c = true.
Proof. by_cases c. Qed.

Lemma letter_not_digit c : is_letter c = true → is_digit c = false.
Proof. by_cases c. Qed.

Lemma slash_not_word : is_word slash = false.
Proof. reflexivity. Qed.

Lemma upper_digit c : is_digit c = true → upper_char c = c.
Proof. by_cases c. Qed.

Lemma upper_letter c : is_letter c = true → is_letter (upper_char c) = true.
Proof. by_cases c. Qed.

Lemma upper_letter_fixed c :
  is_letter c = true → upper_char (upper_char c) = upper_char c.
Proof. by_cases c. Qed.

Lemma upper_letter_ascii c :
  is_letter c = true → is_ascii (upper_char c) = true →
  is_upper_letter (upper_char c) = true.
Proof. by_cases c. Qed.

Lemma upper_upper_letter c : is_upper_letter c = true → upper_char c = c.
Proof. by_cases c. Qed.

Lemma upper_letter_is_letter c : is_upper_letter c = true → is_letter c = true.
Proof. by_cases c. Qed.

Lemma upper_slash : upper_char slash = slash.
Proof. reflexivity. Qed.

Lemma space_not_word c : is_space c = true → is_word c = false.
Proof. by_cases c. Qed.

End CharFacts.

Global Opaque is_digit is_letter is_upper_letter is_word is_space upper_char is_ascii.

(** ** The tag pattern *)

Section Pattern.

Lemma sdrop_nil n : sdrop n "" = "".
Proof. by destruct n. Qed.

Lemma substring_sdrop o n s :
  String.substring o n s = String.substring 0 n (sdrop o s).
Proof.
  revert s; induction o as [|o IH]; intros [|c s]; simpl; try done.
  by destruct n.
Qed.

Lemma word_at_sdrop o k s : word_at (sdrop o s) k = word_at s (o + k).
Proof.
  revert s; induction o as [|o IH]; intros [|c s]; simpl; done.
Qed.

Lemma length_substring_0 n s :
  n ≤ String.length s → String.length (String.substring 0 n s) = n.
Proof.
  revert s; induction n as [|n IH]; intros [|c s]; simpl; try done; try lia.
  intros. rewrite IH; lia.
Qed.

Lemma substring_0_0 s : String.substring 0 0 s = "".
Proof. by destruct s. Qed.

Local Ltac norm_sub := cbn [String.substring]; rewrite ?substring_0_0.

Lemma word_at_S c s k : word_at (String c s) (S k) = word_at s k.
Proof. done. Qed.

Lemma word_at_0 s : word_at s 0 = head_is_word s.
Proof. by destruct s. Qed.

Local Ltac norm_word :=
  unfold before_at; rewrite ?word_at_S, ?word_at_0; cbn [head_is_word].

Local Ltac bool_rw :=
  repeat match goal with
         | H : ?x = true |- context [?x] => rewrite H
         | H : ?x = false |- context [?x] => rewrite H
         end.

Lemma match_here_nil b : match_here b "" = None.
Proof. by destruct b. Qed.

Lemma eqb_slash c : Ascii.eqb c slash = true → c = slash.
Proof. apply Ascii.eqb_eq. Qed.

Local Ltac shape_facts :=
  unfold tag_shape, tag_shape_upper, all_chars; simpl;
  rewrite ?andb_true_iff;
  match goal with
  | |- context [Ascii.eqb ?a ?b] =>
      destruct (Ascii.eqb_spec a b); unfold slash in *; intuition congruence
  end.

Lemma tag_shape_8 d1 d2 sl l1 l2 d3 d4 d5 :
  tag_shape (String d1 (String d2 (String sl (String l1 (String l2
    (String d3 (String d4 (String d5 "")))))))) = true ↔
  is_digit d1 = true ∧ is_digit d2 = true ∧ sl = slash
  ∧ is_letter l1 = true ∧ is_letter l2 = true
  ∧ is_digit d3 = true ∧ is_digit d4 = true ∧ is_digit d5 = true.
Proof. shape_facts. Qed.

Lemma tag_shape_9 d1 d2 sl l1 l2 d3 d4 d5 d6 :
  tag_shape (String d1 (String d2 (String sl (String l1 (String l2
    (String d3 (String d4 (String d5 (String d6 ""))))))))) = true ↔
  is_digit d1 = true ∧ is_digit d2 = true ∧ sl = slash
  ∧ is_letter l1 = true ∧ is_letter l2 = true
  ∧ is_digit d3 = true ∧ is_digit d4 = true ∧ is_digit d5 = true
  ∧ is_digit d6 = true.
Proof. shape_facts. Qed.

Lemma tag_shape_length s :
  tag_shape s = true → String.length s = 8 ∨ String.length s = 9.
Proof.
  unfold tag_shape. rewrite !andb_true_iff, orb_true_iff, !Nat.eqb_eq. tauto.
Qed.

(** What a successful attempt says about the text at the position. *)
Lemma match_here_iff b s n :
  match_here b s = Some n ↔
    b = false ∧ n ≤ String.length s
    ∧ tag_shape (String.substring 0 n s) = true
    ∧ xorb (before_at false s n) (word_at s n) = true.
Proof.
  split.
  - unfold match_here.
    destruct (boundary b (head_is_word s)) eqn:Hb; [|done].
    do 8 (destruct s as [|? s]; [done|]).
    match goal with |- (if ?c then _ else _) = _ → _ => destruct c eqn:Hc end; [|done].
    rewrite !andb_true_iff in Hc. destruct_and!.
    match goal with H : Ascii.eqb _ _ = true |- _ => apply eqb_slash in H; subst end.
    assert (b = false) as ->.
    { simpl in Hb. rewrite (digit_is_word a) in Hb by done. by destruct b. }
    clear Hb.
    destruct s as [|d6 s].
    + destruct (boundary _ _) eqn:Hb2; [|done]. intros [= <-].
      split_and!; [done|simpl; lia|norm_sub; by apply tag_shape_8|by norm_word].
    + destruct (is_digit d6 && _) eqn:H9.
      * intros [= <-]. apply andb_true_iff in H9 as [H9 Hb9].
        split_and!; [done|simpl; lia|norm_sub; by apply tag_shape_9|].
        by norm_word.
      * destruct (boundary (is_word a6) _) eqn:Hb2; [|done]. intros [= <-].
        split_and!; [done|simpl; lia|norm_sub; by apply tag_shape_8|by norm_word].
  - intros (-> & Hn & Hshape & Hbd).
    assert (n = 8 ∨ n = 9) as Hn89.
    { apply tag_shape_length in Hshape. by rewrite length_substring_0 in Hshape. }
    destruct Hn89 as [-> | ->].
    + do 8 (destruct s as [|? s]; [simpl in Hn; lia|]).
      revert Hshape. norm_sub. intros Hshape.
      apply tag_shape_8 in Hshape. destruct_and!. subst.
      revert Hbd. norm_word. intros Hbd.
      unfold match_here, boundary in *. cbn [head_is_word].
      rewrite (digit_is_word a), Ascii.eqb_refl by done. bool_rw. simpl.
      rewrite (digit_is_word a6) in * by done.
      destruct s as [|d6 s]; [done|]. cbn [head_is_word] in *.
      destruct (is_digit d6) eqn:Hd6.
      { apply digit_is_word in Hd6. rewrite Hd6 in Hbd. done. }
      by destruct (is_word d6).
    + do 9 (destruct s as [|? s]; [simpl in Hn; lia|]).
      revert Hshape. norm_sub. intros Hshape.
      apply tag_shape_9 in Hshape. destruct_and!. subst.
      revert Hbd. norm_word. intros Hbd.
      unfold match_here, boundary in *. cbn [head_is_word].
      rewrite (digit_is_word a), Ascii.eqb_refl by done. by bool_rw.
Qed.

(** An attempt only succeeds on a digit that no word character precedes. *)
Lemma match_here_head b s n :
  match_here b s = Some n →
  b = false ∧ ∃ c s', s = String c s' ∧ is_digit c = true.
Proof.
  unfold match_here.
  destruct (boundary b (head_is_word s)) eqn:Hb; [|done].
  do 8 (destruct s as [|? s]; [done|]).
  match goal with |- (if ?c then _ else _) = _ → _ => destruct c eqn:Hc end; [|done].
  rewrite !andb_true_iff in Hc. destruct_and!. intros _.
  simpl in Hb. rewrite (digit_is_word a) in Hb by done.
  split; [by destruct b | eauto].
Qed.

Local Ltac inside_match :=
  match goal with
  | Hb : is_word ?c = false, H : is_digit ?c = true |- _ =>
      by rewrite (digit_is_word c H) in Hb
  | Hb : is_word ?c = false, H : is_letter ?c = true |- _ =>
      by rewrite (letter_is_word c H) in Hb
  | Hc : is_digit ?c = true, H : is_letter ?c = true |- _ =>
      by rewrite (letter_not_digit c H) in Hc
  end.

(** No attempt succeeds strictly inside a match: matches do not overlap. *)
Lemma match_here_no_overlap b s n o :
  match_here b s = Some n → 0 < o < n →
  match_here (before_at b s o) (sdrop o s) = None.
Proof.
  intros Hm Ho.
  destruct (match_here (before_at b s o) (sdrop o s)) as [n'|] eqn:Hm'; [|done].
  exfalso. apply match_here_head in Hm' as (Hb' & c & s' & Hs' & Hc).
  apply match_here_iff in Hm as (-> & Hn & Hshape & Hbd).
  pose proof (tag_shape_length _ Hshape) as Hlen.
  rewrite length_substring_0 in Hlen by done.
  clear Hbd n'.
  destruct Hlen as [-> | ->].
  - do 8 (destruct s as [|? s]; [simpl in Hn; lia|]).
    revert Hshape. norm_sub. intros Hshape.
    apply tag_shape_8 in Hshape. destruct_and!. subst.
    assert (o = 1 ∨ o = 2 ∨ o = 3 ∨ o = 4 ∨ o = 5 ∨ o = 6 ∨ o = 7)
      as Hcases by lia.
    destruct_or!; subst o; cbn [sdrop] in Hs'; injection Hs' as <- _;
      revert Hb'; norm_word; intros Hb'; inside_match.
  - do 9 (destruct s as [|? s]; [simpl in Hn; lia|]).
    revert Hshape. norm_sub. intros Hshape.
    apply tag_shape_9 in Hshape. destruct_and!. subst.
    assert (o = 1 ∨ o = 2 ∨ o = 3 ∨ o = 4 ∨ o = 5 ∨ o = 6 ∨ o = 7 ∨ o = 8)
      as Hcases by lia.
    destruct_or!; subst o; cbn [sdrop] in Hs'; injection Hs' as <- _;
      revert Hb'; norm_word; intros Hb'; inside_match.
Qed.

Lemma before_at_S b c s o :
  before_at b (String c s) (S o) = before_at (is_word c) s o.
Proof. by destruct o. Qed.

(** The scan reports exactly the positions, from [skip] on, where an
    attempt succeeds. *)
Lemma scan_spec s before pos skip m :
  m ∈ scan before pos skip s ↔
  ∃ o n, skip ≤ o
    ∧ m = mkMatch (pos + o) (pos + o + n) (String.substring o n s)
    ∧ match_here (before_at before s o) (sdrop o s) = Some n.
Proof.
  revert before pos skip.
  induction s as [|c s IH]; intros before pos skip.
  - simpl. split; [by intros ?%elem_of_nil|].
    intros (o & n & _ & _ & Hm). by rewrite sdrop_nil, match_here_nil in Hm.
  - assert (∀ k, (∃ o n, k ≤ o
        ∧ m = mkMatch (S pos + o) (S pos + o + n) (String.substring o n s)
        ∧ match_here (before_at (is_word c) s o) (sdrop o s) = Some n) ↔
      (∃ o n, S k ≤ o
        ∧ m = mkMatch (pos + o) (pos + o + n) (String.substring o n (String c s))
        ∧ match_here (before_at before (String c s) o) (sdrop o (String c s)) = Some n))
      as Hshift.
    { intros k; split.
      - intros (o & n & Ho & -> & Hm). exists (S o), n.
        rewrite before_at_S. split_and!; [lia| |done].
        f_equal; lia.
      - intros (o & n & Ho & -> & Hm). destruct o as [|o]; [lia|].
        exists o, n. rewrite before_at_S in Hm. split_and!; [lia| |done].
        f_equal; lia. }
    cbn [scan]. destruct skip as [|k].
    + destruct (match_here before (String c s)) as [n0|] eqn:Hm0.
      * rewrite elem_of_cons, IH, Hshift. split.
        -- intros [-> | (o & n & Ho & -> & Hm)].
           ++ exists 0, n0. split_and!; [lia| |done]. f_equal; lia.
           ++ exists o, n. split_and!; [lia|done|done].
        -- intros (o & n & _ & -> & Hm). destruct o as [|o].
           ++ left. simpl in Hm. rewrite Hm0 in Hm. injection Hm as ->.
              f_equal; lia.
           ++ right. exists (S o), n. split_and!; [|done|done].
              destruct (decide (S o < n0)) as [Hlt|]; [|lia].
              rewrite (match_here_no_overlap _ _ _ (S o) Hm0) in Hm; [done|lia].
      * rewrite IH, Hshift. split.
        -- intros (o & n & Ho & -> & Hm). exists o, n. split_and!; [lia|done|done].
        -- intros (o & n & _ & -> & Hm). destruct o as [|o].
           ++ simpl in Hm. by rewrite Hm0 in Hm.
           ++ exists (S o), n. split_and!; [lia|done|done].
    + by rewrite IH, Hshift.
Qed.

Lemma length_sdrop o s : String.length (sdrop o s) = String.length s - o.
Proof. revert s; induction o as [|o IH]; intros [|c s]; simpl; done. Qed.

Lemma before_at_sdrop b b' o n s :
  0 < n → before_at b (sdrop o s) n = before_at b' s (o + n).
Proof.
  destruct n as [|n]; [lia|]. intros _.
  replace (o + S n) with (S (o + n)) by lia. simpl. apply word_at_sdrop.
Qed.

Lemma tag_shape_head n s :
  tag_shape (String.substring 0 n s) = true →
  ∃ c s', s = String c s' ∧ is_digit c = true.
Proof.
  destruct n as [|n]; [by rewrite substring_0_0|].
  destruct s as [|c s]; [done|]. cbn [String.substring].
  unfold tag_shape, all_chars. rewrite !andb_true_iff. simpl.
  rewrite !andb_true_iff. intros. destruct_and!. eauto.
Qed.

(** An attempt succeeds at a position exactly when a delimited tag starts
    there. *)
Lemma match_at_iff text o n :
  match_here (before_at false text o) (sdrop o text) = Some n ↔
  is_tag_at text o (o + n).
Proof.
  unfold is_tag_at, is_boundary.
  replace (o + n - o) with n by lia.
  rewrite match_here_iff, length_sdrop, <- substring_sdrop.
  split.
  - intros (Hb & Hn & Hshape & Hbd).
    pose proof (tag_shape_length _ Hshape) as Hlen.
    rewrite (substring_sdrop o), length_substring_0 in Hlen
      by (rewrite length_sdrop; lia).
    pose proof Hshape as Hhead. rewrite (substring_sdrop o) in Hhead.
    apply tag_shape_head in Hhead as (c & s' & Hs & Hc).
    rewrite <- (before_at_sdrop false false o n text) by lia.
    split_and!; [lia|lia|done| |by rewrite word_at_sdrop in Hbd].
    rewrite Hb. replace o with (o + 0) at 1 by lia.
    rewrite <- word_at_sdrop, Hs. simpl. by apply digit_is_word.
  - intros (Hij & Hshape & Hbo & Hbd).
    pose proof Hshape as Hhead. rewrite (substring_sdrop o) in Hhead.
    apply tag_shape_head in Hhead as (c & s' & Hs & Hc).
    assert (String.length (sdrop o text) ≠ 0) as Hne by (by rewrite Hs).
    rewrite length_sdrop in Hne.
    pose proof (tag_shape_length _ Hshape) as Hlen.
    rewrite (substring_sdrop o), length_substring_0 in Hlen
      by (rewrite length_sdrop; lia).
    rewrite (before_at_sdrop false false o n text) by lia.
    split_and!; [|lia|done|by rewrite word_at_sdrop].
    replace (word_at text o) with true in Hbo; [by destruct (before_at _ _ _)|].
    replace o with (o + 0) at 1 by lia.
    rewrite <- word_at_sdrop, Hs. simpl. symmetry. by apply digit_is_word.
Qed.

(** The matches of [finditer] are the delimited tags of the text. *)
Lemma finditer_spec text m :
  m ∈ finditer text ↔
  is_tag_at text (m_start m) (m_end m)
  ∧ m_text m = String.substring (m_start m) (m_end m - m_start m) text.
Proof.
  unfold finditer. rewrite scan_spec. split.
  - intros (o & n & _ & -> & Hm). apply match_at_iff in Hm. simpl.
    split; [done|]. f_equal; lia.
  - intros (Htag & Htext). destruct m as [i j t]; simpl in *.
    exists i, (j - i). pose proof Htag as (Hij & _).
    split_and!; [lia|subst; f_equal; lia|].
    apply match_at_iff. by replace (i + (j - i)) with j by lia.
Qed.

Lemma tag_shape_upper_8 d1 d2 sl l1 l2 d3 d4 d5 :
  tag_shape_upper (String d1 (String d2 (String sl (String l1 (String l2
    (String d3 (String d4 (String d5 "")))))))) = true ↔
  is_digit d1 = true ∧ is_digit d2 = true ∧ sl = slash
  ∧ is_upper_letter l1 = true ∧ is_upper_letter l2 = true
  ∧ is_digit d3 = true ∧ is_digit d4 = true ∧ is_digit d5 = true.
Proof. shape_facts. Qed.

Lemma tag_shape_upper_9 d1 d2 sl l1 l2 d3 d4 d5 d6 :
  tag_shape_upper (String d1 (String d2 (String sl (String l1 (String l2
    (String d3 (String d4 (String d5 (String d6 ""))))))))) = true ↔
  is_digit d1 = true ∧ is_digit d2 = true ∧ sl = slash
  ∧ is_upper_letter l1 = true ∧ is_upper_letter l2 = true
  ∧ is_digit d3 = true ∧ is_digit d4 = true ∧ is_digit d5 = true
  ∧ is_digit d6 = true.
Proof. shape_facts. Qed.

Local Ltac upper_digits :=
  repeat match goal with
         | H : is_digit ?c = true |- context [upper_char ?c] =>
             rewrite (upper_digit c H)
         end.

(** Upper-casing a tag gives a tag which upper-casing leaves alone; its
    letters are among [A-Z] when they are ASCII characters. *)
Lemma upper_tag s :
  tag_shape s = true →
  tag_shape (upper s) = true ∧ upper (upper s) = upper s
  ∧ (all_chars is_ascii (upper s) = true → tag_shape_upper (upper s) = true).
Proof.
  intros Hshape. destruct (tag_shape_length _ Hshape) as [Hlen|Hlen].
  - do 8 (destruct s as [|? s]; [done|]). destruct s; [|done].
    apply tag_shape_8 in Hshape. destruct_and!. subst. cbn [upper].
    rewrite !upper_slash. upper_digits. split_and!.
    + apply tag_shape_8. split_and!; auto using upper_letter.
    + by rewrite !upper_letter_fixed by done.
    + unfold all_chars. simpl. rewrite !andb_true_iff. intros ?. destruct_and!.
      apply tag_shape_upper_8. split_and!; auto using upper_letter_ascii.
  - do 9 (destruct s as [|? s]; [done|]). destruct s; [|done].
    apply tag_shape_9 in Hshape. destruct_and!. subst. cbn [upper].
    rewrite !upper_slash. upper_digits. split_and!.
    + apply tag_shape_9. split_and!; auto using upper_letter.
    + by rewrite !upper_letter_fixed by done.
    + unfold all_chars. simpl. rewrite !andb_true_iff. intros ?. destruct_and!.
      apply tag_shape_upper_9. split_and!; auto using upper_letter_ascii.
Qed.

Lemma tag_shape_upper_shape s : tag_shape_upper s = true → tag_shape s = true.
Proof.
  unfold tag_shape, tag_shape_upper, all_chars. rewrite !andb_true_iff.
  intros ((((Hn & ?) & ?) & Hl) & ?). split_and!; try done.
  rewrite forallb_forall in *. intros c Hc. by apply upper_letter_is_letter, Hl.
Qed.

(** A tag on its own is matched as a whole. *)
Lemma whole_tag_matches s :
  tag_shape s = true → mkMatch 0 (String.length s) s ∈ finditer s.
Proof.
  intros Hshape. apply finditer_spec. unfold is_tag_at, is_boundary. simpl.
  destruct (tag_shape_length _ Hshape) as [Hlen|Hlen].
  - do 8 (destruct s as [|? s]; [done|]). destruct s; [|done].
    pose proof Hshape as Hs. apply tag_shape_8 in Hs. destruct_and!. subst.
    norm_sub. simpl. norm_word.
    rewrite (digit_is_word a), (digit_is_word a6) by done.
    split_and!; (done || lia).
  - do 9 (destruct s as [|? s]; [done|]). destruct s; [|done].
    pose proof Hshape as Hs. apply tag_shape_9 in Hs. destruct_and!. subst.
    norm_sub. simpl. norm_word.
    rewrite (digit_is_word a), (digit_is_word a7) by done.
    split_and!; (done || lia).
Qed.

Lemma finditer_shape text m : m ∈ finditer text → tag_shape (group1 m) = true.
Proof. intros ((_ & Hshape & _) & Htext)%finditer_spec. unfold group1. by rewrite Htext. Qed.

End Pattern.

(** Claim C3.  In every page text, the matcher reports a substring as a tag
    if and only if it has the form [\d{2}/[A-Z]{2}\d{3,4}], letters in either
    case, between two word boundaries.  ["01/AC501"] and ["03/ac602"] are
    matched and normalise to ["01/AC501"] and ["03/AC602"]; ["001/AC501"] and
    ["01/A501"] give no match. *)
Theorem tag_pattern_correct :
  (∀ (text : string) (i j : nat),
      (∃ m, m ∈ finditer text ∧ m_start m = i ∧ m_end m = j
            ∧ group0 m = String.substring i (j - i) text
            ∧ group1 m = group0 m)
      ↔ is_tag_at text i j)
  ∧ (upper ∘ group1) <$> finditer "01/AC501" = ["01/AC501"]
  ∧ (upper ∘ group1) <$> finditer "03/ac602" = ["03/AC602"]
  ∧ finditer "001/AC501" = []
  ∧ finditer "01/A501" = [].
Proof.
  split_and!; [|vm_compute; reflexivity..].
  intros text i j. split.
  - intros (m & Hm & <- & <- & _). by apply finditer_spec in Hm as [? _].
  - intros Htag. exists (mkMatch i j (String.substring i (j - i) text)).
    split_and!; try done. by apply finditer_spec.
Qed.

(** The tag of the first page of the scenario, found at the offsets 11 to 19. *)
Lemma tag_pattern_correct_witness :
  is_tag_at "see detail 01/AC501 for more" 11 19.
Proof.
  apply (proj1 tag_pattern_correct "see detail 01/AC501 for more" 11 19).
  exists (mkMatch 11 19 "01/AC501").
  split_and!; [|vm_compute; reflexivity..].
  assert (finditer "see detail 01/AC501 for more" = [mkMatch 11 19 "01/AC501"])
    as -> by (vm_compute; reflexivity).
  constructor.
Defined.

(** ** Snippets *)

Section Snippet.

Lemma join_cons_char sep c t ts :
  join sep (String c t :: ts) = String c (join sep (t :: ts)).
Proof. by destruct ts. Qed.

Lemma split_lstrip s : split (lstrip s) = split s.
Proof.
  induction s as [|c s IH]; [done|]. simpl.
  destruct (is_space c) eqn:Hc; [done|]. simpl. by rewrite Hc.
Qed.

Lemma rstrip_head c s :
  rstrip (String c s) = "" ∨ ∃ r, rstrip (String c s) = String c r.
Proof. simpl. destruct (rstrip s); [destruct (is_space c)|]; eauto. Qed.

Lemma split_cons c s :
  split (String c s) =
    if is_space c then split s
    else match s with
         | EmptyString => [String c EmptyString]
         | String c' _ =>
             if is_space c' then String c EmptyString :: split s
             else match split s with
                  | t :: ts => String c t :: ts
                  | [] => [String c EmptyString]
                  end
         end.
Proof. done. Qed.

Lemma split_rstrip s : split (rstrip s) = split s.
Proof.
  induction s as [|c s IH]; [done|].
  cbn [rstrip]. destruct (rstrip s) as [|c2 r] eqn:Hr.
  - rewrite (split_cons c s). destruct (is_space c) eqn:Hc; [done|].
    rewrite split_cons, Hc. destruct s as [|c' s']; [done|].
    destruct (rstrip_head c' s') as [_ | [r' Hr']]; [|congruence].
    rewrite <- IH. simpl in Hr.
    destruct (rstrip s'); [|done]. by destruct (is_space c').
  - destruct s as [|c' s']; [done|].
    destruct (rstrip_head c' s') as [? | [r' Hr']]; [congruence|].
    assert (c2 = c') as -> by congruence.
    by rewrite (split_cons c (String c' r)), (split_cons c (String c' s')), IH.
Qed.

(** Stripping first does not change the tokens. *)
Lemma split_strip s : split (strip s) = split s.
Proof. unfold strip. by rewrite split_rstrip, split_lstrip. Qed.

Lemma squeeze_split s :
  squeeze false false s = join " " (split s)
  ∧ squeeze true true s = owed s
  ∧ squeeze true false s =
      match s with
      | EmptyString => ""
      | String c _ => if is_space c then owed s else join " " (split s)
      end.
Proof.
  induction s as [|c s (IH1 & IH2 & IH3)]; [done|].
  assert (is_space c = false →
          join " " (split (String c s)) = String c (squeeze true false s)) as Hsolid.
  { intros Hc. rewrite split_cons, Hc, IH3. destruct s as [|c' s']; [done|].
    unfold owed. destruct (is_space c'); destruct (split (String c' s')); try done.
    apply join_cons_char. }
  unfold owed in *. cbn [squeeze]. rewrite (split_cons c s).
  destruct (is_space c) eqn:Hc; [done|].
  rewrite <- Hsolid by done. rewrite (split_cons c s), Hc.
  split_and!; try done.
  destruct s as [|c' s']; [done|].
  by destruct (is_space c'); destruct (split (String c' s')).
Qed.

(** Splitting on whitespace and joining with single spaces is the one-pass
    collapse. *)
Lemma join_split_collapse s : join " " (split s) = collapse s.
Proof. symmetry. apply squeeze_split. Qed.

Lemma append_cons c s t : String c s +:+ t = String c (s +:+ t).
Proof. done. Qed.

Lemma append_nil_r s : s +:+ "" = s.
Proof. induction s as [|c s IH]; [done|]. by rewrite append_cons, IH. Qed.

Lemma append_assoc s1 s2 s3 : (s1 +:+ s2) +:+ s3 = s1 +:+ s2 +:+ s3.
Proof. induction s1 as [|c s1 IH]; [done|]. by rewrite !append_cons, IH. Qed.

Lemma split_tokens s :
  Forall (λ t, t ≠ "" ∧ no_space t = true) (split s).
Proof.
  assert (∀ c, is_space c = false → no_space (String c "") = true) as Hone.
  { intros c Hc. unfold no_space, all_chars. simpl. by rewrite Hc. }
  induction s as [|c s IH]; [constructor|].
  rewrite split_cons. destruct (is_space c) eqn:Hc; [done|].
  destruct s as [|c' s']; [repeat constructor; auto|].
  destruct (is_space c'); [constructor; auto|].
  destruct (split (String c' s')) as [|t ts]; [repeat constructor; auto|].
  inversion IH as [|?? [_ Ht] Hts]; subst. constructor; [|done].
  split; [done|]. unfold no_space, all_chars in *. simpl. by rewrite Hc.
Qed.

Lemma concat_all_cons t ts : concat_all (t :: ts) = t +:+ concat_all ts.
Proof. unfold concat_all. destruct ts; simpl; [by rewrite append_nil_r|done]. Qed.

Lemma concat_split s : concat_all (split s) = solid_chars s.
Proof.
  induction s as [|c s IH]; [done|].
  rewrite split_cons. cbn [solid_chars]. destruct (is_space c) eqn:Hc; [done|].
  rewrite <- IH. destruct s as [|c' s']; [done|].
  destruct (is_space c'); [by rewrite concat_all_cons|].
  destruct (split (String c' s')) as [|t ts]; [done|].
  by rewrite !concat_all_cons.
Qed.

(** The snippet is the collapsed window between the two optional
    ellipses. *)
Lemma extract_snippet_parts text start end_ context_chars :
  extract_snippet text start end_ context_chars =
    (if (0 <? window_start start context_chars)%Z then "..." else "")
    +:+ join " " (split (slice text (window_start start context_chars)
                                    (window_end text end_ context_chars)))
    +:+ (if (window_end text end_ context_chars <? len text)%Z then "..." else "").
Proof.
  unfold extract_snippet. fold (window_start start context_chars).
  fold (window_end text end_ context_chars). rewrite split_strip.
  rewrite Z.gtb_ltb.
  destruct (0 <? _)%Z, (_ <? len text)%Z;
    rewrite ?append_nil_r, ?append_assoc; done.
Qed.

(** A slice between two bounds that are not negative holds the characters
    at the positions in between. *)
Lemma substring_clamp s n m :
  String.substring n m s =
    String.substring (n `min` String.length s)
      ((n + m) `min` String.length s - n `min` String.length s) s.
Proof.
  revert n m; induction s as [|c s IH]; intros [|n] m; simpl.
  - by destruct m.
  - done.
  - destruct m as [|m]; [done|]. simpl. f_equal.
    rewrite (IH 0 m). simpl. f_equal. lia.
  - by rewrite (IH n m).
Qed.

Lemma slice_chars_between text a b :
  (0 ≤ a)%Z → (0 ≤ b ≤ len text)%Z →
  slice text a b = chars_between text a b.
Proof.
  intros Ha Hb. unfold slice, chars_between, slice_index, len in *.
  rewrite (substring_clamp text (Z.to_nat a)).
  destruct (Z.ltb_spec a 0), (Z.ltb_spec b 0); try lia.
  f_equal; lia.
Qed.

End Snippet.

(** Claim C4.  For a text and offsets [start], [end] (not negative) and the
    default context of 50 characters, the body of the snippet is made of the
    characters of the text in the window from [max(0, start - 50)] to
    [min(len(text), end + 50)]; ["..."] is put in front exactly when the left
    edge is greater than 0 and behind exactly when the right edge is less
    than [len(text)].  For a text of length 200 and a match at 100..108 the
    snippet comes from [text[50:158]] between two ellipses; for a match at
    0..8 nothing is put in front. *)
Theorem snippet_window (text : string) (start end_ : Z)
    (Hstart : (0 ≤ start)%Z) (Hend : (0 ≤ end_)%Z) :
  let a := window_start start default_context_chars in
  let b := window_end text end_ default_context_chars in
  (∃ pre suf,
      extract_snippet text start end_ default_context_chars
        = pre +:+ collapse (chars_between text a b) +:+ suf
      ∧ (pre = "..." ∨ pre = "") ∧ (pre = "..." ↔ (0 < a)%Z)
      ∧ (suf = "..." ∨ suf = "") ∧ (suf = "..." ↔ (b < len text)%Z))
  ∧ (String.length text = 200 →
     extract_snippet text 100 108 default_context_chars
       = "..." +:+ collapse (chars_between text 50 158) +:+ "...")
  ∧ (∃ suf,
      extract_snippet text 0 8 default_context_chars
        = collapse (chars_between text 0 (Z.min (len text) 58)) +:+ suf
      ∧ (suf = "..." ∨ suf = "")).
Proof.
  assert (∀ s e, (0 ≤ s)%Z → (0 ≤ e)%Z →
    extract_snippet text s e default_context_chars =
      (if (0 <? window_start s default_context_chars)%Z then "..." else "")
      +:+ collapse (chars_between text (window_start s default_context_chars)
                      (window_end text e default_context_chars))
      +:+ (if (window_end text e default_context_chars <? len text)%Z
           then "..." else "")) as Hparts.
  { intros s e Hs He. rewrite extract_snippet_parts, join_split_collapse.
    rewrite slice_chars_between; [done| |];
      unfold window_start, window_end, default_context_chars, len; lia. }
  cbv zeta. split_and!.
  - rewrite Hparts by done. eexists _, _. split; [reflexivity|].
    destruct (Z.ltb_spec 0 (window_start start default_context_chars)),
      (Z.ltb_spec (window_end text end_ default_context_chars) (len text));
      split_and!; try (by auto); split; (done || lia).
  - intros Hlen. rewrite Hparts by done.
    unfold window_start, window_end, default_context_chars, len.
    by rewrite Hlen.
  - rewrite Hparts by done. eexists. split; [reflexivity|].
    destruct (_ <? _)%Z; auto.
Qed.

(** The window of the sample text of 200 characters. *)
Lemma snippet_window_witness :
  extract_snippet text200 100 108 default_context_chars
    = "..." +:+ collapse (chars_between text200 50 158) +:+ "...".
Proof.
  apply (snippet_window text200 100 108); [lia | lia | reflexivity].
Defined.

(** Claim C5.  For every input, the body of the snippet is the window with
    its leading and trailing whitespace removed and every run of whitespace
    inside it replaced by one space: it is the list of the tokens of the
    window, separated by whitespace, joined again with single spaces. *)
Theorem snippet_whitespace_collapsed (text : string) (start end_ context_chars : Z) :
  let w := slice text (window_start start context_chars)
             (window_end text end_ context_chars) in
  let body := join " " (split w) in
  (∃ pre suf,
      (pre = "..." ∨ pre = "") ∧ (suf = "..." ∨ suf = "")
      ∧ extract_snippet text start end_ context_chars = pre +:+ body +:+ suf)
  ∧ join " " (split (strip w)) = body
  ∧ body = collapse w
  ∧ Forall (λ t, t ≠ "" ∧ no_space t = true) (split w)
  ∧ concat_all (split w) = solid_chars w
  ∧ extract_snippet messy_text 14 22 default_context_chars
      = "note: see 01/AC501 there".
Proof.
  cbv zeta. split_and!.
  - rewrite extract_snippet_parts. eexists _, _.
    split_and!; [| |reflexivity]; by destruct (_ <? _)%Z; auto.
  - by rewrite split_strip.
  - apply join_split_collapse.
  - apply split_tokens.
  - apply concat_split.
  - by vm_compute.
Qed.

(** ** Paths *)

Section Paths.

Import PosixPath.

Lemma split_on_nonempty sep s : split_on sep s ≠ [].
Proof.
  destruct s as [|c s]; simpl; [done|].
  destruct (Ascii.eqb c sep); [done|]. by destruct (split_on sep s).
Qed.

(** A separator splits a string into what the two sides split into. *)
Lemma split_on_app sep a b :
  split_on sep (a +:+ String sep b) = split_on sep a ++ split_on sep b.
Proof.
  induction a as [|c a IH]; rewrite ?append_cons; simpl.
  - by rewrite Ascii.eqb_refl.
  - destruct (Ascii.eqb c sep); [by rewrite IH|]. rewrite IH.
    pose proof (split_on_nonempty sep a). by destruct (split_on sep a).
Qed.

Lemma split_on_whole s :
  all_chars (λ c, negb (is_slash c)) s = true → split_on "/" s = [s].
Proof.
  unfold all_chars. induction s as [|c s IH]; simpl; [done|].
  rewrite andb_true_iff. intros [Hc Hs]. unfold is_slash in Hc.
  destruct (Ascii.eqb c "/"); [done|]. by rewrite (IH Hs).
Qed.

(** What follows the root of a path is the path without one or two leading
    slashes, or the path itself. *)
Lemma splitroot_rest p :
  (splitroot p).2 = p
  ∨ p = String "/" (splitroot p).2
  ∨ p = String "/" (String "/" (splitroot p).2).
Proof.
  unfold splitroot, is_slash. destruct p as [|c1 r1]; [by left|].
  destruct (Ascii.eqb_spec c1 "/") as [->|_]; [|by left].
  destruct r1 as [|c2 r2]; [by right; left|].
  destruct (Ascii.eqb_spec c2 "/") as [->|_]; [|by right; left].
  destruct (starts_with_slash r2); [by right; left|by right; right].
Qed.

Lemma file_name_head c s : is_file_name (String c s) = true → c ≠ "/"%char.
Proof.
  unfold is_file_name, all_chars, is_slash. simpl. rewrite !andb_true_iff.
  intros [[Hc _] _] ->. by rewrite Ascii.eqb_refl in Hc.
Qed.

Lemma file_name_not_empty : is_file_name "" = false.
Proof. reflexivity. Qed.

(** The last component of a path that ends in a file name. *)
Lemma last_component s base :
  is_file_name base = true →
  s = base ∨ (∃ dir, s = dir +:+ String "/" base) →
  List.last (filter (λ x, is_part x = true) (split_on "/" s)) "" = base.
Proof.
  unfold is_file_name. rewrite andb_true_iff. intros [Hslash Hpart] Hs.
  assert (∃ l, split_on "/" s = l ++ [base]) as [l ->].
  { destruct Hs as [-> | [dir ->]].
    - exists []. by apply split_on_whole.
    - exists (split_on "/" dir). by rewrite split_on_app, (split_on_whole base). }
  rewrite filter_app, filter_cons_True, filter_nil by done.
  apply last_last.
Qed.

(** [Path(p).name] of a path that ends in a file name is this name. *)
Lemma name_of_file p base :
  is_file_name base = true →
  p = base ∨ (∃ dir, p = dir +:+ "/" +:+ base) →
  name p = base.
Proof.
  intros Hbase Hp. unfold name, tail. apply last_component; [done|].
  destruct base as [|b base]; [done|].
  pose proof (file_name_head _ _ Hbase) as Hb.
  generalize (splitroot_rest p). generalize ((splitroot p).2). intros r Hr.
  assert (p = String b base ∨ ∃ dir, p = dir +:+ String "/" (String b base))
    as Hp' by done.
  clear Hp Hbase. destruct Hr as [-> | [-> | ->]]; [done|..].
  - destruct Hp' as [? | [[|c dir] Hp]]; [by simplify_eq|..];
      rewrite ?append_cons in Hp; change ("" +:+ ?x) with x in Hp; simplify_eq.
    + by left.
    + right. by exists dir.
  - destruct Hp' as [? | [[|c [|c' dir]] Hp]]; [by simplify_eq|..];
      rewrite ?append_cons in Hp; change ("" +:+ ?x) with x in Hp; simplify_eq.
    + by left.
    + right. by exists dir.
Qed.

End Paths.

(** ** Loops *)

Section Loops.

Context {A B : Type}.

(** An invariant indexed by the items a loop has been through. *)
Lemma for_each_ind (P : list B → A → Prop) (body : A → B → result A) l a r :
  P [] a →
  (∀ done b a1 a2, b ∈ l → P done a1 → body a1 b = Ok a2 → P (done ++ [b]) a2) →
  for_each body l a = Ok r → P l r.
Proof.
  intros Hinit Hstep.
  enough (∀ rest done a0, (∀ b, b ∈ rest → b ∈ l) → P done a0 →
            for_each body rest a0 = Ok r → P (done ++ rest) r) as Hgen.
  { intros Hrun. by apply (Hgen l [] a). }
  induction rest as [|b rest IH]; intros done a0 Hin Hdone Hrun; simpl in Hrun.
  - rewrite app_nil_r. congruence.
  - destruct (body a0 b) as [a1|e] eqn:Hb; [|done]. simpl in Hrun.
    replace (done ++ b :: rest) with ((done ++ [b]) ++ rest)
      by (by rewrite <- app_assoc).
    apply (IH _ a1); [|eapply Hstep; eauto|done].
    + intros b' ?. apply Hin. by right.
    + apply Hin. by left.
Qed.

(** A loop over nothing, or whose body changes nothing, changes nothing. *)
Lemma for_each_id (body : A → B → result A) l a :
  (∀ b a0, b ∈ l → body a0 b = Ok a0) → for_each body l a = Ok a.
Proof.
  induction l as [|b l IH]; intros Hid; [done|]. simpl.
  rewrite Hid by (by left). simpl. apply IH. intros b' a0 ?. apply Hid. by right.
Qed.

End Loops.

(** ** The page scan *)

Section Scan.

Context {coord : Type} (round2 : coord → coord).

Implicit Types (doc : Document coord) (pg : Page coord) (acc : Acc coord).
Implicit Types (occs : gmap string (list (Occurrence coord))).

Lemma load_page_ok doc i pg :
  load_page doc i = Ok pg ↔ doc_pages doc !! i = Some (Ok pg).
Proof.
  unfold load_page. destruct (doc_pages doc !! i) as [r|]; [|done].
  split; congruence.
Qed.

(** *** One match *)

Lemma rect_body_lookup text page_num m tag occs rect tag' :
  rect_body round2 text page_num m tag occs rect !! tag' =
    if decide (tag' = tag)
    then Some (default [] (occs !! tag)
               ++ new_occurrences round2 text page_num m [rect])
    else occs !! tag'.
Proof.
  unfold rect_body, new_occurrences. rewrite lookup_alter.
  destruct (decide (tag' = tag)) as [->|Hne].
  - rewrite decide_True by done.
    destruct (occs !! tag) eqn:Hl; simpl; [by rewrite Hl|].
    by rewrite lookup_insert_eq.
  - rewrite decide_False by done.
    destruct (occs !! tag); [done|]. by rewrite lookup_insert_ne.
Qed.

Lemma rects_fold_lookup text page_num m tag rects occs tag' :
  fold_left (rect_body round2 text page_num m tag) rects occs !! tag' =
    if decide (tag' = tag)
    then match rects with
         | [] => occs !! tag
         | _ => Some (default [] (occs !! tag)
                      ++ new_occurrences round2 text page_num m rects)
         end
    else occs !! tag'.
Proof.
  revert occs. induction rects as [|rect rects IH]; intros occs; simpl.
  - case_decide; by subst.
  - rewrite IH. destruct (decide (tag' = tag)) as [->|Hne].
    + rewrite rect_body_lookup, decide_True by done. simpl.
      destruct rects; [done|]. by rewrite <- app_assoc.
    + by rewrite rect_body_lookup, decide_False.
Qed.

Lemma match_body_ok pg text page_num acc m acc' :
  match_body round2 pg text page_num acc m = Ok acc' ↔
  ∃ rects, search_for pg (group0 m) = Ok rects
           ∧ acc' = after_match round2 text page_num m rects acc.
Proof.
  unfold match_body, after_match, rbind.
  destruct (search_for pg (group0 m)) as [rects|e]; split.
  - intros [= <-]. eauto.
  - by intros (? & [= <-] & ->).
  - done.
  - by intros (? & ? & _).
Qed.

Lemma page_body_ok doc acc page_num acc' :
  page_body round2 doc acc page_num = Ok acc' ↔
  ∃ pg text, doc_pages doc !! page_num = Some (Ok pg) ∧ get_text pg = Ok text
    ∧ for_each (match_body round2 pg text page_num) (finditer text) acc = Ok acc'.
Proof.
  unfold page_body, rbind. split.
  - destruct (load_page doc page_num) as [pg|] eqn:Hpg; [|done].
    destruct (get_text pg) as [text|] eqn:Htext; [|done].
    apply load_page_ok in Hpg. eauto.
  - intros (pg & text & Hpg%load_page_ok & Htext & Hrun).
    by rewrite Hpg, Htext.
Qed.

(** *** Invariants of the scan *)

(** A property of the accumulators that every match keeps holds of the
    result of the scan. *)
Lemma scan_pages_invariant (I : Acc coord → Prop) doc n acc :
  I (mkAcc ∅ ∅) →
  (∀ i pg text m rects a,
      i < n → doc_pages doc !! i = Some (Ok pg) → get_text pg = Ok text →
      m ∈ finditer text → search_for pg (group0 m) = Ok rects →
      I a → I (after_match round2 text i m rects a)) →
  scan_pages round2 doc n = Ok acc → I acc.
Proof.
  intros Hinit Hstep. unfold scan_pages.
  apply (for_each_ind (λ _, I)); [done|].
  intros _ i a1 a2 Hi%elem_of_seq Ha1 (pg & text & Hpg & Htext & Hrun)%page_body_ok.
  revert Hrun. apply (for_each_ind (λ _, I)); [done|].
  intros _ m a3 a4 Hm Ha3 (rects & Hrects & ->)%match_body_ok.
  eapply Hstep; eauto. lia.
Qed.

Lemma after_match_lookup text page_num m rects acc tag :
  tag_occurrences (after_match round2 text page_num m rects acc) !! tag =
    if decide (tag = upper (group1 m))
    then match rects with
         | [] => tag_occurrences acc !! tag
         | _ => Some (default [] (tag_occurrences acc !! tag)
                      ++ new_occurrences round2 text page_num m rects)
         end
    else tag_occurrences acc !! tag.
Proof.
  unfold after_match. simpl. rewrite rects_fold_lookup.
  case_decide; [subst|]; done.
Qed.

(** A key is there after a match when it was there before, or when it is
    the tag of the match and a rectangle was found. *)
Lemma after_match_is_Some text page_num m rects acc tag :
  is_Some (tag_occurrences (after_match round2 text page_num m rects acc) !! tag) ↔
  is_Some (tag_occurrences acc !! tag) ∨ (tag = upper (group1 m) ∧ rects ≠ []).
Proof.
  rewrite after_match_lookup. case_decide as Htag.
  - destruct rects.
    + split; [by left|]. by intros [?|[_ ?]].
    + split; [intros _|eauto]. by right.
  - split; [by left|]. by intros [?|[? _]].
Qed.

Lemma new_occurrences_pages text page_num m rects :
  Forall (λ o, page o = page_num + 1) (new_occurrences round2 text page_num m rects).
Proof. unfold new_occurrences. by apply Forall_fmap, Forall_true. Qed.

Lemma scan_pages_in_range doc n acc :
  scan_pages round2 doc n = Ok acc → pages_in_range n (tag_occurrences acc).
Proof.
  apply (scan_pages_invariant (λ a, pages_in_range n (tag_occurrences a))).
  - intros tag l Hl. simpl in Hl. by rewrite lookup_empty in Hl.
  - intros i pg text m rects a Hi _ _ _ _ Ha tag l.
    rewrite after_match_lookup. case_decide as Htag; [|apply Ha].
    destruct rects as [|rect rects]; [apply Ha|]. intros [= <-].
    apply Forall_app. split.
    + destruct (tag_occurrences a !! tag) as [l0|] eqn:Hl0; [|constructor].
      by apply (Ha tag).
    + eapply Forall_impl;
        [apply (new_occurrences_pages text i m (rect :: rects))|].
      simpl. lia.
Qed.

Lemma scan_keys_wellformed doc n acc :
  scan_pages round2 doc n = Ok acc → keys_wellformed (tag_occurrences acc).
Proof.
  apply (scan_pages_invariant (λ a, keys_wellformed (tag_occurrences a))).
  - intros tag [l Hl]. simpl in Hl. by rewrite lookup_empty in Hl.
  - intros i pg text m rects a _ _ _ Hm _ Ha tag.
    rewrite after_match_is_Some. intros [Hold | [-> _]]; [by apply Ha|].
    by apply upper_tag, (finditer_shape text).
Qed.

(** *** The set of all tags *)

Lemma scan_keys_in_all_tags doc n acc :
  scan_pages round2 doc n = Ok acc → dom (tag_occurrences acc) ⊆ all_tags acc.
Proof.
  apply (scan_pages_invariant (λ a, dom (tag_occurrences a) ⊆ all_tags a)).
  - simpl. set_solver.
  - intros i pg text m rects a _ _ _ _ _ Ha tag.
    rewrite elem_of_dom, after_match_is_Some, <- elem_of_dom. simpl.
    set_solver.
Qed.

Lemma scan_located doc n acc :
  always_located doc →
  scan_pages round2 doc n = Ok acc → dom (tag_occurrences acc) = all_tags acc.
Proof.
  intros Hloc.
  apply (scan_pages_invariant (λ a, dom (tag_occurrences a) = all_tags a)).
  - simpl. set_solver.
  - intros i pg text m rects a _ Hpg Htext Hm Hrects Ha.
    pose proof (Hloc i pg text m rects Hpg Htext Hm Hrects) as Hne.
    apply set_eq. intros tag.
    rewrite elem_of_dom, after_match_is_Some, <- elem_of_dom, Ha. simpl.
    set_solver.
Qed.

Lemma tags_of_matches_snoc ms m :
  tags_of_matches (ms ++ [m]) = tags_of_matches ms ∪ {[upper (group1 m)]}.
Proof.
  unfold tags_of_matches. rewrite fmap_app, list_to_set_app_L. simpl. set_solver.
Qed.

Lemma page_matches_all_tags pg text page_num acc acc' :
  for_each (match_body round2 pg text page_num) (finditer text) acc = Ok acc' →
  all_tags acc' = all_tags acc ∪ tags_of_matches (finditer text).
Proof.
  apply (for_each_ind (λ ms a, all_tags a = all_tags acc ∪ tags_of_matches ms)).
  - unfold tags_of_matches. simpl. set_solver.
  - intros ms m a1 a2 _ Ha1 (rects & _ & ->)%match_body_ok.
    rewrite tags_of_matches_snoc. simpl. rewrite Ha1. set_solver.
Qed.

(** The set of all tags holds the tags matched on the pages scanned. *)
Lemma scan_all_tags doc n acc :
  scan_pages round2 doc n = Ok acc →
  all_tags acc = ⋃ (page_tags doc <$> seq 0 n).
Proof.
  unfold scan_pages.
  apply (for_each_ind (λ seen a, all_tags a = ⋃ (page_tags doc <$> seen))).
  - done.
  - intros seen i a1 a2 _ Ha1 (pg & text & Hpg & Htext & Hrun)%page_body_ok.
    apply page_matches_all_tags in Hrun.
    rewrite fmap_app, union_list_app_L, Hrun, Ha1. simpl.
    unfold page_tags. apply load_page_ok in Hpg. rewrite Hpg, Htext.
    set_solver.
Qed.

End Scan.

(** ** The indexer and the program *)

Section Extract.

Context {coord : Type} (round2 : coord → coord).

Implicit Types (doc : Document coord) (w : World coord) (idx : Index coord).

Lemma path_exists_lookup path w :
  path_exists path w = true ↔
  is_Some (files w !! PosixPath.absolute (cwd w) path).
Proof. unfold path_exists. apply bool_decide_eq_true. Qed.

(** The runs of [extract_tags_from_pdf], by what the path holds. *)
Lemma extract_unfold path w :
  extract_tags_from_pdf round2 path w =
    match files w !! PosixPath.absolute (cwd w) path with
    | None =>
        (Raise (FileNotFoundError
                  ("PDF file not found: " +:+ PosixPath.to_str path)), w)
    | Some (PdfFile doc) =>
        let opened := handles w ++ [Opened (PosixPath.to_str path)] in
        let scanning :=
          stdout w ++ ["Scanning " +:+ pretty (doc_len doc) +:+ " pages in '"
                       +:+ PosixPath.name path +:+ "'..."] in
        match scan_pages round2 doc (doc_len doc) with
        | Ok acc =>
            (Ok (mkIndex (PosixPath.name path) (doc_len doc)
                   (size (all_tags acc)) (tag_occurrences acc)),
             mkWorld (files w) (cwd w) (writable w)
               (scanning ++
                  ["Found " +:+ pretty (size (all_tags acc))
                   +:+ " unique tags with "
                   +:+ pretty (total_occurrences (tag_occurrences acc))
                   +:+ " total occurrences"])
               (stderr w)
               (opened ++ [Closed (PosixPath.to_str path)]))
        | Raise e =>
            (Raise e,
             mkWorld (files w) (cwd w) (writable w) scanning (stderr w) opened)
        end
    | Some _ =>
        (Raise (OtherError ("Failed to open file '"
                            +:+ PosixPath.to_str path +:+ "'.")), w)
    end.
Proof.
  unfold extract_tags_from_pdf, path_exists, fitz_open.
  destruct (files w !! PosixPath.absolute (cwd w) path) as [[doc|?|]|] eqn:Hf.
  - rewrite bool_decide_true by eauto. cbn -[scan_pages pretty String.append].
    unfold bind, lift, doc_close, log_handle, print, ret.
    rewrite Hf. cbn -[scan_pages pretty String.append].
    by destruct (scan_pages round2 doc (doc_len doc)).
  - rewrite bool_decide_true by eauto. cbn -[String.append].
    unfold bind. by rewrite Hf.
  - rewrite bool_decide_true by eauto. cbn -[String.append].
    unfold bind. by rewrite Hf.
  - rewrite bool_decide_false; [done|]. by intros [? ?].
Qed.

(** A run that returns an index went through the whole scan of the
    document the path holds. *)
Lemma extract_ok_inv path w idx w' :
  extract_tags_from_pdf round2 path w = (Ok idx, w') →
  ∃ doc acc,
    files w !! PosixPath.absolute (cwd w) path = Some (PdfFile doc)
    ∧ scan_pages round2 doc (doc_len doc) = Ok acc
    ∧ idx = mkIndex (PosixPath.name path) (doc_len doc)
              (size (all_tags acc)) (tag_occurrences acc)
    ∧ files w' = files w
    ∧ handles w' = handles w ++ [Opened (PosixPath.to_str path);
                                 Closed (PosixPath.to_str path)].
Proof.
  rewrite extract_unfold.
  destruct (files w !! PosixPath.absolute (cwd w) path) as [[doc|?|]|]; try done.
  cbv zeta. destruct (scan_pages round2 doc (doc_len doc)) as [acc|e] eqn:Hscan;
    [|done].
  intros [= <- <-]. exists doc, acc. simpl.
  split_and!; try done. by rewrite <- app_assoc.
Qed.

(** Claim C8.  In every index that [extract_tags_from_pdf] returns, the
    page of every occurrence is a number from 1 to [total_pages]. *)
Theorem occurrence_pages_in_range path w idx w' tag l o :
  extract_tags_from_pdf round2 path w = (Ok idx, w') →
  tags idx !! tag = Some l → o ∈ l →
  1 ≤ page o ≤ total_pages idx.
Proof.
  intros (doc & acc & _ & Hscan & -> & _)%extract_ok_inv Hl Ho. simpl in *.
  apply scan_pages_in_range in Hscan.
  by apply (proj1 (Forall_forall _ _) (Hscan tag l Hl)).
Qed.

(** Claim C9, as amended.  Every key of the tags of a returned index is
    an upper-cased tag: [upper()] leaves it as it is, and it has the form
    [\d{2}/[A-Z]{2}\d{3,4}] as the pattern reads it, under
    [re.IGNORECASE], where the pattern matches it as a whole.  A key made of
    ASCII characters has the form with the letters [A-Z] themselves.  (The
    pattern also matches the letters U+0130 and U+212A, whose upper case is
    not in [A-Z].) *)
Theorem keys_are_upper_cased_tags path w idx w' tag :
  extract_tags_from_pdf round2 path w = (Ok idx, w') →
  tag ∈ dom (tags idx) →
  upper tag = tag
  ∧ tag_shape tag = true
  ∧ mkMatch 0 (String.length tag) tag ∈ finditer tag
  ∧ (all_chars is_ascii tag = true → tag_shape_upper tag = true).
Proof.
  intros (doc & acc & _ & Hscan & -> & _)%extract_ok_inv Htag. simpl in *.
  apply scan_keys_wellformed in Hscan.
  apply elem_of_dom, Hscan in Htag as (Hshape & Hupper & Hascii).
  split_and!; try done. by apply whole_tag_matches.
Qed.

(** Claim C1, as amended.  In every index that is returned, [total_tags]
    is the number of distinct normalised tags that the pattern matched on
    some page.  The keys of [tags] are among these tags, so there are at
    most [total_tags] of them, and exactly [total_tags] when every search
    for a matched text finds at least one rectangle. *)
Theorem total_tags_counts_matched_tags path w idx w' doc :
  extract_tags_from_pdf round2 path w = (Ok idx, w') →
  files w !! PosixPath.absolute (cwd w) path = Some (PdfFile doc) →
  total_tags idx = size (matched_tags doc)
  ∧ dom (tags idx) ⊆ matched_tags doc
  ∧ size (dom (tags idx)) ≤ total_tags idx
  ∧ (always_located doc → size (dom (tags idx)) = total_tags idx).
Proof.
  intros (doc' & acc & Hfile & Hscan & -> & _)%extract_ok_inv Hdoc. simpl.
  assert (doc' = doc) as -> by congruence.
  pose proof (scan_all_tags _ _ _ _ Hscan) as Hall.
  pose proof (scan_keys_in_all_tags _ _ _ _ Hscan) as Hsub.
  fold (matched_tags doc) in Hall. rewrite <- Hall.
  split_and!; [done|done|by apply subseteq_size|].
  intros Hloc. by rewrite (scan_located _ _ _ _ Hloc Hscan).
Qed.

(** *** Documents without tags *)

Lemma page_without_matches doc acc i pg text :
  doc_pages doc !! i = Some (Ok pg) → get_text pg = Ok text →
  finditer text = [] → page_body round2 doc acc i = Ok acc.
Proof.
  intros Hpg Htext Hnone. apply page_body_ok. exists pg, text.
  by rewrite Hnone.
Qed.

Lemma scan_without_matches doc :
  doc_len doc = 0 ∨ no_matches doc →
  scan_pages round2 doc (doc_len doc) = Ok (mkAcc ∅ ∅).
Proof.
  intros Hnone. unfold scan_pages. apply for_each_id.
  intros i acc Hi%elem_of_seq. destruct Hnone as [Hlen | Hnone]; [lia|].
  destruct (lookup_lt_is_Some_2 (doc_pages doc) i) as [r Hr];
    [unfold doc_len in Hi; lia|].
  destruct (Hnone i r Hr) as (pg & text & -> & Htext & Hfind).
  by apply (page_without_matches doc acc i pg text).
Qed.

(** Claim C10.  For a document without pages, or whose pages all have a
    text in which the pattern matches nothing, [extract_tags_from_pdf]
    returns an index with [total_tags = 0], no tags, the number of pages of
    the document as [total_pages] and the last component of the path as
    [pdf_file]: the file name in which the path ends, without the
    directories before it.  A page without a match leaves the accumulators
    as they are. *)
Theorem index_without_matches path w doc :
  files w !! PosixPath.absolute (cwd w) path = Some (PdfFile doc) →
  doc_len doc = 0 ∨ no_matches doc →
  (∃ w', extract_tags_from_pdf round2 path w
         = (Ok (mkIndex (PosixPath.name path) (doc_len doc) 0 ∅), w'))
  ∧ (∀ base, is_file_name base = true →
        path = base ∨ (∃ dir, path = dir +:+ "/" +:+ base) →
        ∃ w', extract_tags_from_pdf round2 path w
              = (Ok (mkIndex base (doc_len doc) 0 ∅), w'))
  ∧ (∀ acc i pg text,
        doc_pages doc !! i = Some (Ok pg) → get_text pg = Ok text →
        finditer text = [] → page_body round2 doc acc i = Ok acc).
Proof.
  intros Hfile Hnone.
  assert (∃ w', extract_tags_from_pdf round2 path w
                = (Ok (mkIndex (PosixPath.name path) (doc_len doc) 0 ∅), w'))
    as Hrun.
  { rewrite extract_unfold, Hfile. cbv zeta.
    rewrite (scan_without_matches doc Hnone). simpl. eauto. }
  split_and!; [done| |intros; by eapply page_without_matches].
  intros base Hbase Hpath. by rewrite <- (name_of_file path base).
Qed.

(** *** Failures *)

(** Claim C6.  When the path does not name an existing file,
    [extract_tags_from_pdf] raises [FileNotFoundError] with nothing else
    done, and the program ends with status 1, a line [Error: ...] added to
    the error stream, and the files, the output stream and the handles as
    they were: no document is opened and no output file written. *)
Theorem missing_file_fails path output w :
  path_exists path w = false →
  let message := "PDF file not found: " +:+ PosixPath.to_str path in
  extract_tags_from_pdf round2 path w = (Raise (FileNotFoundError message), w)
  ∧ main round2 (mkArgs path output) w
    = (1, mkWorld (files w) (cwd w) (writable w) (stdout w)
            (stderr w ++ ["Error: " +:+ message]) (handles w))
  ∧ (main round2 (mkArgs path output) w).1 ≠ 0
  ∧ files (main round2 (mkArgs path output) w).2 = files w.
Proof.
  intros Hmissing message.
  assert (extract_tags_from_pdf round2 path w
          = (Raise (FileNotFoundError message), w)) as Hraise.
  { unfold extract_tags_from_pdf. by rewrite Hmissing. }
  assert (main round2 (mkArgs path output) w
          = (1, mkWorld (files w) (cwd w) (writable w) (stdout w)
                  (stderr w ++ ["Error: " +:+ message]) (handles w))) as Hmain.
  { unfold main, run, bind. cbn [arg_pdf_file]. by rewrite Hraise. }
  rewrite Hmain. by split_and!.
Qed.

Lemma count_handles_app log log' :
  count_opened (log ++ log') = count_opened log + count_opened log'
  ∧ count_closed (log ++ log') = count_closed log + count_closed log'.
Proof.
  unfold count_opened, count_closed. by rewrite !List.filter_app, !length_app.
Qed.

(** Claim C7, as amended.  On every execution of [extract_tags_from_pdf]
    that opens the document and completes the scan of the pages, the handle
    of the document is released exactly once, after the scan and before the
    function returns: the log of handles gains one opening and one closing,
    in this order. *)
Theorem handle_released_once_on_return path w idx w' :
  extract_tags_from_pdf round2 path w = (Ok idx, w') →
  handles w' = handles w ++ [Opened (PosixPath.to_str path);
                             Closed (PosixPath.to_str path)]
  ∧ count_opened (handles w') = S (count_opened (handles w))
  ∧ count_closed (handles w') = S (count_closed (handles w)).
Proof.
  intros (doc & acc & _ & _ & _ & _ & Hlog)%extract_ok_inv. rewrite Hlog.
  destruct (count_handles_app (handles w)
              [Opened (PosixPath.to_str path); Closed (PosixPath.to_str path)])
    as [-> ->].
  change (count_opened [Opened (PosixPath.to_str path);
                        Closed (PosixPath.to_str path)]) with 1.
  change (count_closed [Opened (PosixPath.to_str path);
                        Closed (PosixPath.to_str path)]) with 1.
  split_and!; [done|lia..].
Qed.

(** It stays open when the scan raises. *)
Lemma handle_kept_on_exception path w doc e :
  files w !! PosixPath.absolute (cwd w) path = Some (PdfFile doc) →
  scan_pages round2 doc (doc_len doc) = Raise e →
  (extract_tags_from_pdf round2 path w).1 = Raise e
  ∧ handles (extract_tags_from_pdf round2 path w).2
    = handles w ++ [Opened (PosixPath.to_str path)].
Proof.
  intros Hfile Hscan. rewrite extract_unfold, Hfile. cbv zeta.
  by rewrite Hscan.
Qed.

End Extract.

(** ** The properties on the sample documents *)

Lemma scenario_run :
  extract_tags_from_pdf two_decimals "set.pdf" Scenario.world
  = (Ok Scenario.index, Scenario.after).
Proof. vm_compute. reflexivity. Qed.

Lemma scenario_always_located : always_located Scenario.doc.
Proof.
  intros i pg text m rects Hpg Htext Hm Hrects.
  destruct i as [|[|[|i]]]; simpl in Hpg; try done;
    injection Hpg as <-; injection Htext as <-;
    vm_compute in Hm; repeat (apply elem_of_cons in Hm as [-> | Hm]);
    try (by apply elem_of_nil in Hm);
    vm_compute in Hrects; by injection Hrects as <-.
Qed.

Lemma untagged_no_matches : no_matches Untagged.doc.
Proof.
  intros i r Hr. destruct i as [|[|i]]; simpl in Hr; try done;
    injection Hr as <-; eexists _, _; split_and!; try reflexivity;
    vm_compute; reflexivity.
Qed.

(** The page of the occurrence of ["03/AC602"] in the scenario. *)
Lemma occurrence_pages_in_range_witness :
  1 ≤ page (Scenario.occ 3 "01/AC501 03/AC602 01/AC501" 13500)
    ≤ total_pages Scenario.index.
Proof.
  apply (occurrence_pages_in_range two_decimals "set.pdf" Scenario.world
           Scenario.index Scenario.after "03/AC602"
           [Scenario.occ 3 "01/AC501 03/AC602 01/AC501" 13500]).
  - exact scenario_run.
  - vm_compute. reflexivity.
  - constructor.
Defined.

(** The key ["01/AC501"] of the scenario. *)
Lemma keys_are_upper_cased_tags_witness :
  upper "01/AC501" = "01/AC501"
  ∧ tag_shape "01/AC501" = true
  ∧ mkMatch 0 (String.length "01/AC501") "01/AC501" ∈ finditer "01/AC501"
  ∧ tag_shape_upper "01/AC501" = true.
Proof.
  destruct (keys_are_upper_cased_tags two_decimals "set.pdf" Scenario.world
              Scenario.index Scenario.after "01/AC501") as (H1 & H2 & H3 & H4).
  - exact scenario_run.
  - apply elem_of_dom. eexists. vm_compute. reflexivity.
  - split_and!; [exact H1 | exact H2 | exact H3 | apply H4].
    vm_compute. reflexivity.
Defined.

(** The claim C9 as it stands fails on a tag written with the Kelvin sign,
    which [[A-Z]] matches under [re.IGNORECASE] as a [k] and which
    [upper()] leaves as it is: the key is the matched text, and its letters
    are not among [A-Z]. *)
Lemma key_with_letters_outside_A_to_Z :
  (extract_tags_from_pdf two_decimals "kelvin.pdf" Kelvin.world).1
    = Ok Kelvin.index
  ∧ Kelvin.tag ∈ dom (tags Kelvin.index)
  ∧ (codepoint <$> list_ascii_of_string Kelvin.tag
     = [48; 49; 47; 0x212A; 0x212A; 53; 48; 49]%N)
  ∧ (upper ∘ group1) <$> finditer ("detail " +:+ Kelvin.tag) = [Kelvin.tag]
  ∧ upper Kelvin.tag = Kelvin.tag
  ∧ all_chars is_upper_letter (String.substring 3 2 Kelvin.tag) = false
  ∧ tag_shape_upper Kelvin.tag = false.
Proof.
  split_and!; vm_compute; reflexivity.
Qed.

(** The counts of the scenario, where every search finds a rectangle. *)
Lemma total_tags_counts_matched_tags_witness :
  total_tags Scenario.index = size (matched_tags Scenario.doc)
  ∧ dom (tags Scenario.index) ⊆ matched_tags Scenario.doc
  ∧ size (dom (tags Scenario.index)) ≤ total_tags Scenario.index
  ∧ size (dom (tags Scenario.index)) = total_tags Scenario.index.
Proof.
  destruct (total_tags_counts_matched_tags two_decimals "set.pdf" Scenario.world
              Scenario.index Scenario.after Scenario.doc scenario_run)
    as (H1 & H2 & H3 & H4).
  - vm_compute. reflexivity.
  - split_and!; [exact H1 | exact H2 | exact H3 | exact (H4 scenario_always_located)].
Defined.

(** The claim C1 as it stands fails on a page whose tag the search does not
    find: one tag is counted and no key is made. *)
Lemma total_tags_not_key_count :
  (extract_tags_from_pdf two_decimals "plan.pdf" Unlocated.world).1
    = Ok Unlocated.index
  ∧ total_tags Unlocated.index = 1
  ∧ size (dom (tags Unlocated.index)) = 0
  ∧ total_tags Unlocated.index ≠ size (dom (tags Unlocated.index)).
Proof. split_and!; [vm_compute; reflexivity..|]. vm_compute. discriminate. Qed.

(** The two documents without tags, one of them in a directory below the
    working directory. *)
Lemma index_without_matches_witness :
  (∃ w', extract_tags_from_pdf two_decimals "sets/notes.pdf" Untagged.world
         = (Ok (mkIndex "notes.pdf" 2 0 ∅), w'))
  ∧ (∃ w', extract_tags_from_pdf two_decimals "empty.pdf" Untagged.world
           = (Ok (mkIndex "empty.pdf" 0 0 ∅), w')).
Proof.
  split.
  - destruct (index_without_matches two_decimals "sets/notes.pdf" Untagged.world
                Untagged.doc) as (_ & Hname & _).
    + vm_compute. reflexivity.
    + right. exact untagged_no_matches.
    + apply (Hname "notes.pdf"); [vm_compute; reflexivity|].
      right. by exists "sets".
  - destruct (index_without_matches two_decimals "empty.pdf" Untagged.world
                Untagged.empty_doc) as (_ & Hname & _).
    + vm_compute. reflexivity.
    + left. reflexivity.
    + apply (Hname "empty.pdf"); [vm_compute; reflexivity|]. by left.
Defined.

(** A path that names nothing in the world of the scenario. *)
Lemma missing_file_fails_witness :
  main two_decimals (mkArgs "nope.pdf" "index.json") Scenario.world
  = (1, mkWorld (files Scenario.world) "/plans" (writable Scenario.world) []
          ["Error: PDF file not found: nope.pdf"] []).
Proof.
  apply (missing_file_fails two_decimals "nope.pdf" "index.json" Scenario.world).
  vm_compute. reflexivity.
Defined.

(** Claim C2, on the code.  On the three pages of the scenario the code
    returns [total_pages = 3] and [total_tags = 2] and one occurrence of
    ["03/AC602"] on page 3, but five occurrences of ["01/AC501"]: one on
    page 1 and four on page 3, where each of the two matches is given both
    rectangles. *)
Theorem scenario_occurrences :
  (extract_tags_from_pdf two_decimals "set.pdf" Scenario.world).1
    = Ok Scenario.index
  ∧ total_pages Scenario.index = 3
  ∧ total_tags Scenario.index = 2
  ∧ (map page <$> tags Scenario.index !! "01/AC501") = Some [1; 3; 3; 3; 3]
  ∧ (map page <$> tags Scenario.index !! "03/AC602") = Some [3]
  ∧ length <$> tags Scenario.index !! "01/AC501" ≠ Some 3.
Proof. split_and!; [vm_compute; reflexivity..|]. vm_compute. discriminate. Qed.

(** The log of handles after the run of the scenario. *)
Lemma handle_released_once_on_return_witness :
  handles Scenario.after = handles Scenario.world ++ [Opened "set.pdf"; Closed "set.pdf"]
  ∧ count_opened (handles Scenario.after) = S (count_opened (handles Scenario.world))
  ∧ count_closed (handles Scenario.after) = S (count_closed (handles Scenario.world)).
Proof.
  apply (handle_released_once_on_return two_decimals "set.pdf" Scenario.world
           Scenario.index Scenario.after).
  exact scenario_run.
Defined.

(** The claim C7 as it stands fails when loading a page raises: the document
    has been opened, and [extract_tags_from_pdf] is left without closing it;
    the program then ends with the handle still open. *)
Lemma handle_not_released_when_page_raises :
  (extract_tags_from_pdf two_decimals "locked.pdf" Locked.world).1
    = Raise (OtherError "document closed or encrypted")
  ∧ handles (extract_tags_from_pdf two_decimals "locked.pdf" Locked.world).2
    = [Opened "locked.pdf"]
  ∧ count_opened
      (handles (extract_tags_from_pdf two_decimals "locked.pdf" Locked.world).2) = 1
  ∧ count_closed
      (handles (extract_tags_from_pdf two_decimals "locked.pdf" Locked.world).2) = 0
  ∧ handles (main two_decimals (mkArgs "locked.pdf" "index.json") Locked.world).2
    = [Opened "locked.pdf"].
Proof. split_and!; vm_compute; reflexivity. Qed.

(** * Further properties *)

(** ** The content of the index *)

Section Prefixes.

Context {A B : Type}.

(** An invariant of a loop that knows which items came before and which are
    still to come. *)
Lemma for_each_prefix_ind (P : list B → A → Prop) (body : A → B → result A) l a r :
  P [] a →
  (∀ seen b rest a1 a2,
      l = seen ++ b :: rest → P seen a1 → body a1 b = Ok a2 → P (seen ++ [b]) a2) →
  for_each body l a = Ok r → P l r.
Proof.
  intros Hinit Hstep.
  enough (∀ rest seen a0, l = seen ++ rest → P seen a0 →
            for_each body rest a0 = Ok r → P l r) as Hgen.
  { intros Hrun. by apply (Hgen l [] a). }
  induction rest as [|b rest IH]; intros seen a0 Hl Hseen Hrun; simpl in Hrun.
  - rewrite app_nil_r in Hl. congruence.
  - destruct (body a0 b) as [a1|e] eqn:Hb; [|done]. simpl in Hrun.
    apply (IH (seen ++ [b]) a1); [by rewrite <- app_assoc|by eapply Hstep|done].
Qed.

(** A loop returns exactly when its body returns at every item. *)
Lemma for_each_returns (body : A → B → result A) l a :
  (∀ b a0, b ∈ l → ∃ a1, body a0 b = Ok a1) → ∃ r, for_each body l a = Ok r.
Proof.
  revert a. induction l as [|b l IH]; intros a Hbody; [by eexists|]. simpl.
  destruct (Hbody b a) as [a1 ->]; [by left|]. simpl.
  apply IH. intros b' a0 ?. apply Hbody. by right.
Qed.

End Prefixes.

Section HitsFacts.

Context {coord : Type} (round2 : coord → coord).

Implicit Types (doc : Document coord) (pg : Page coord) (acc : Acc coord).
Implicit Types (hits : list (string * Occurrence coord)).

Lemma occurrences_of_app tag hits hits' :
  occurrences_of tag (hits ++ hits')
  = occurrences_of tag hits ++ occurrences_of tag hits'.
Proof. unfold occurrences_of. by rewrite filter_app, fmap_app. Qed.

Lemma occurrences_of_tagged tag tag' (occs : list (Occurrence coord)) :
  occurrences_of tag ((λ o, (tag', o)) <$> occs)
  = if decide (tag = tag') then occs else [].
Proof.
  unfold occurrences_of. destruct (decide (tag = tag')) as [->|Hne].
  - induction occs as [|o occs IH]; [done|].
    rewrite fmap_cons, filter_cons_True by done. by rewrite fmap_cons, IH.
  - induction occs as [|o occs IH]; [done|].
    rewrite fmap_cons, filter_cons_False by (simpl; congruence). done.
Qed.

Lemma elem_of_occurrences_of tag hits o :
  o ∈ occurrences_of tag hits ↔ (tag, o) ∈ hits.
Proof.
  unfold occurrences_of. rewrite list_elem_of_fmap. split.
  - intros ([t o'] & -> & [Ht Hin]%list_elem_of_filter). simpl in *. by subst.
  - intros Hin. exists (tag, o). split; [done|]. by apply list_elem_of_filter.
Qed.

Lemma nonempty_default {A} (l : list A) : default [] (nonempty l) = l.
Proof. by destruct l. Qed.

Lemma nonempty_app {A} (l k : list A) : k ≠ [] → nonempty (l ++ k) = Some (l ++ k).
Proof. intros Hk. destruct l; [by destruct k|done]. Qed.

Lemma bind_snoc {X Y} (f : X → list Y) (l : list X) (x : X) :
  (l ++ [x]) ≫= f = (l ≫= f) ++ f x.
Proof. rewrite bind_app. simpl. by rewrite app_nil_r. Qed.

(** One match appends its entries to the lists. *)
Lemma after_match_hits pg text page_num m rects acc hits :
  search_for pg (group0 m) = Ok rects →
  (∀ tag, tag_occurrences acc !! tag = nonempty (occurrences_of tag hits)) →
  ∀ tag, tag_occurrences (after_match round2 text page_num m rects acc) !! tag
         = nonempty (occurrences_of tag
                       (hits ++ match_hits round2 pg text page_num m)).
Proof.
  intros Hrects Hacc tag. rewrite after_match_lookup, Hacc.
  unfold match_hits. rewrite Hrects, occurrences_of_app, occurrences_of_tagged.
  case_decide as Htag; [|by rewrite app_nil_r].
  destruct rects as [|rect rects]; [by rewrite app_nil_r|].
  rewrite nonempty_default. by rewrite nonempty_app.
Qed.

Lemma page_lookup_hits pg text page_num acc acc' hits :
  (∀ tag, tag_occurrences acc !! tag = nonempty (occurrences_of tag hits)) →
  for_each (match_body round2 pg text page_num) (finditer text) acc = Ok acc' →
  ∀ tag, tag_occurrences acc' !! tag
         = nonempty (occurrences_of tag
                       (hits ++ (finditer text ≫= match_hits round2 pg text page_num))).
Proof.
  intros Hacc.
  apply (for_each_prefix_ind
           (λ ms a, ∀ tag, tag_occurrences a !! tag
                    = nonempty (occurrences_of tag
                        (hits ++ (ms ≫= match_hits round2 pg text page_num))))).
  - intros tag. simpl. by rewrite app_nil_r.
  - intros ms m rest a1 a2 _ Ha1 (rects & Hrects & ->)%match_body_ok tag.
    rewrite bind_snoc, app_assoc. by apply after_match_hits.
Qed.

(** After the scan, the list under a key holds the entries of the document
    for this key, in their order; a key without entry is absent. *)
Lemma scan_lookup_hits doc n acc :
  scan_pages round2 doc n = Ok acc →
  ∀ tag, tag_occurrences acc !! tag
         = nonempty (occurrences_of tag (seq 0 n ≫= page_hits round2 doc)).
Proof.
  unfold scan_pages.
  apply (for_each_prefix_ind
           (λ seen a, ∀ tag, tag_occurrences a !! tag
                      = nonempty (occurrences_of tag (seen ≫= page_hits round2 doc)))).
  - intros tag. simpl. by rewrite lookup_empty.
  - intros seen i rest a1 a2 _ Ha1 (pg & text & Hpg & Htext & Hrun)%page_body_ok tag.
    rewrite bind_snoc. unfold page_hits at 2.
    apply load_page_ok in Hpg. rewrite Hpg, Htext.
    by apply (page_lookup_hits pg text i a1 a2).
Qed.

(** Where the entries of a document come from. *)
Lemma elem_of_match_hits pg text page_num m tag o :
  (tag, o) ∈ match_hits round2 pg text page_num m ↔
  ∃ rects rect,
    search_for pg (group0 m) = Ok rects ∧ rect ∈ rects
    ∧ tag = upper (group1 m)
    ∧ o = mkOccurrence (page_num + 1)
            (extract_snippet text (Z.of_nat (m_start m)) (Z.of_nat (m_end m))
               default_context_chars)
            (round_rect round2 rect).
Proof.
  unfold match_hits, new_occurrences.
  destruct (search_for pg (group0 m)) as [rects|e].
  - rewrite list_elem_of_fmap. split.
    + intros (o' & [= -> ->] & (rect & -> & Hrect)%list_elem_of_fmap).
      by exists rects, rect.
    + intros (rects' & rect & [= <-] & Hrect & -> & ->).
      eexists. split; [done|]. apply list_elem_of_fmap. by exists rect.
  - split; [by intros ?%elem_of_nil|]. by intros (? & ? & ? & _).
Qed.

Lemma elem_of_page_hits doc page_num tag o :
  (tag, o) ∈ page_hits round2 doc page_num ↔
  ∃ pg text m,
    doc_pages doc !! page_num = Some (Ok pg) ∧ get_text pg = Ok text
    ∧ m ∈ finditer text ∧ (tag, o) ∈ match_hits round2 pg text page_num m.
Proof.
  unfold page_hits. split.
  - destruct (load_page doc page_num) as [pg|] eqn:Hpg; [|by intros ?%elem_of_nil].
    destruct (get_text pg) as [text|] eqn:Htext; [|by intros ?%elem_of_nil].
    intros (m & Hhit & Hm)%list_elem_of_bind. apply load_page_ok in Hpg.
    by exists pg, text, m.
  - intros (pg & text & m & Hpg%load_page_ok & Htext & Hm & Hhit).
    rewrite Hpg, Htext. apply list_elem_of_bind. by exists m.
Qed.

Lemma page_hits_page doc page_num h :
  h ∈ page_hits round2 doc page_num → page h.2 = page_num + 1.
Proof.
  destruct h as [tag o].
  intros (pg & text & m & _ & _ & _ & Hhit)%elem_of_page_hits.
  by apply elem_of_match_hits in Hhit as (rects & rect & _ & _ & _ & ->).
Qed.

(** The entries of a document come in the order of the pages. *)
Lemma hits_in_page_order doc a n :
  StronglySorted (λ h1 h2, page h1.2 ≤ page h2.2) (seq a n ≫= page_hits round2 doc).
Proof.
  revert a. induction n as [|n IH]; intros a; [constructor|].
  simpl. apply StronglySorted_app_2; [| |apply IH].
  - intros h1 h2 H1%page_hits_page (j & H2%page_hits_page & Hj%elem_of_seq)%list_elem_of_bind.
    lia.
  - assert (Forall (λ h, page h.2 = a + 1) (page_hits round2 doc a)) as Hall.
    { apply Forall_forall. intros h. apply page_hits_page. }
    induction Hall as [|h hs Hh Hhs IHhs]; constructor; [done|].
    eapply Forall_impl; [exact Hhs|]. simpl. lia.
Qed.

Lemma occurrences_in_page_order tag hits :
  StronglySorted (λ h1 h2, page h1.2 ≤ page h2.2) hits →
  StronglySorted (λ o1 o2, page o1 ≤ page o2) (occurrences_of tag hits).
Proof.
  unfold occurrences_of. induction 1 as [|h hs Hhs IH Hh]; [constructor|].
  rewrite filter_cons. case_decide; [|done].
  rewrite fmap_cons. constructor; [done|].
  apply Forall_fmap, Forall_forall. intros h' [_ Hin]%list_elem_of_filter.
  by apply (proj1 (Forall_forall _ _) Hh).
Qed.

(** *** Counting the occurrences *)

Lemma total_insert_fresh (occs : gmap string (list (Occurrence coord))) tag l :
  occs !! tag = None →
  total_occurrences (<[tag := l]> occs) = length l + total_occurrences occs.
Proof.
  intros Hfresh. unfold total_occurrences.
  by rewrite (map_to_list_insert occs tag l Hfresh).
Qed.

Lemma total_lookup (occs : gmap string (list (Occurrence coord))) tag l :
  occs !! tag = Some l →
  total_occurrences occs = length l + total_occurrences (delete tag occs).
Proof.
  intros Hl. unfold total_occurrences.
  by rewrite <- (map_to_list_delete occs tag l Hl).
Qed.

Lemma rect_body_insert text page_num m tag occs rect :
  rect_body round2 text page_num m tag occs rect
  = <[tag := default [] (occs !! tag)
             ++ new_occurrences round2 text page_num m [rect]]> occs.
Proof.
  apply map_eq. intros tag'. rewrite rect_body_lookup, lookup_insert.
  repeat case_decide; by subst.
Qed.

(** Each rectangle adds one occurrence. *)
Lemma total_rect_body text page_num m tag occs rect :
  total_occurrences (rect_body round2 text page_num m tag occs rect)
  = S (total_occurrences occs).
Proof.
  rewrite rect_body_insert, <- insert_delete_eq.
  rewrite total_insert_fresh by apply lookup_delete_eq.
  rewrite length_app. simpl.
  destruct (occs !! tag) as [l|] eqn:Hl; simpl.
  - rewrite (total_lookup occs tag l Hl). lia.
  - rewrite delete_id by done. lia.
Qed.

Lemma total_after_match text page_num m rects acc :
  total_occurrences (tag_occurrences (after_match round2 text page_num m rects acc))
  = total_occurrences (tag_occurrences acc) + length rects.
Proof.
  unfold after_match. simpl. generalize (tag_occurrences acc).
  induction rects as [|rect rects IH]; intros occs; simpl; [lia|].
  rewrite IH, total_rect_body. lia.
Qed.

Lemma length_match_hits pg text page_num m rects :
  search_for pg (group0 m) = Ok rects →
  length (match_hits round2 pg text page_num m) = length rects.
Proof.
  intros Hrects. unfold match_hits, new_occurrences.
  by rewrite Hrects, !length_fmap.
Qed.

(** After the scan there are as many occurrences as entries. *)
Lemma scan_total doc n acc :
  scan_pages round2 doc n = Ok acc →
  total_occurrences (tag_occurrences acc)
  = length (seq 0 n ≫= page_hits round2 doc).
Proof.
  unfold scan_pages.
  apply (for_each_prefix_ind
           (λ seen a, total_occurrences (tag_occurrences a)
                      = length (seen ≫= page_hits round2 doc))).
  - done.
  - intros seen i rest a1 a2 _ Ha1 (pg & text & Hpg & Htext & Hrun)%page_body_ok.
    rewrite bind_snoc, length_app, <- Ha1. unfold page_hits.
    apply load_page_ok in Hpg. rewrite Hpg, Htext. revert Hrun.
    apply (for_each_prefix_ind
             (λ ms a, total_occurrences (tag_occurrences a)
                      = total_occurrences (tag_occurrences a1)
                        + length (ms ≫= match_hits round2 pg text i))).
    + simpl. lia.
    + intros ms m rest' a3 a4 _ Ha3 (rects & Hrects & ->)%match_body_ok.
      rewrite bind_snoc, length_app, total_after_match, Ha3.
      rewrite (length_match_hits pg text i m rects Hrects). lia.
Qed.

(** *** When the scan returns *)

Lemma for_each_ok_inv {X Y} (body : X → Y → result X) l a r :
  for_each body l a = Ok r → ∀ b, b ∈ l → ∃ a0 a1, body a0 b = Ok a1.
Proof.
  revert a. induction l as [|b l IH]; intros a Hrun b' Hb'.
  - by apply elem_of_nil in Hb'.
  - simpl in Hrun. destruct (body a b) as [a1|e] eqn:Hb; [|done].
    apply elem_of_cons in Hb' as [->|Hb']; [eauto|]. by apply (IH a1).
Qed.

Lemma scan_returns_iff doc :
  (∃ acc, scan_pages round2 doc (doc_len doc) = Ok acc) ↔ all_calls_return doc.
Proof.
  unfold scan_pages. split.
  - intros [acc Hrun] i Hi.
    destruct (for_each_ok_inv _ _ _ _ Hrun i) as (a0 & a1 & Hbody).
    { apply elem_of_seq. lia. }
    apply page_body_ok in Hbody as (pg & text & Hpg & Htext & Hms).
    exists pg, text. split_and!; [done..|]. intros m Hm.
    destruct (for_each_ok_inv _ _ _ _ Hms m Hm) as (a2 & a3 & Hm').
    apply match_body_ok in Hm' as (rects & Hrects & _). eauto.
  - intros Hcalls. apply for_each_returns. intros i a0 Hi%elem_of_seq.
    destruct (Hcalls i) as (pg & text & Hpg & Htext & Hms); [lia|].
    destruct (for_each_returns (match_body round2 pg text i) (finditer text) a0)
      as [a1 Ha1].
    { intros m a2 Hm. destruct (Hms m Hm) as [rects Hrects].
      eexists. apply match_body_ok. eauto. }
    exists a1. apply page_body_ok. by exists pg, text.
Qed.

End HitsFacts.

Section IndexContent.

Context {coord : Type} (round2 : coord → coord).

Implicit Types (doc : Document coord) (w : World coord) (idx : Index coord).

Lemma elem_of_doc_hits doc tag o :
  (tag, o) ∈ doc_hits round2 doc ↔
  ∃ i pg text m rects rect,
    doc_pages doc !! i = Some (Ok pg) ∧ get_text pg = Ok text
    ∧ m ∈ finditer text
    ∧ search_for pg (group0 m) = Ok rects ∧ rect ∈ rects
    ∧ tag = upper (group1 m)
    ∧ o = mkOccurrence (i + 1)
            (extract_snippet text (Z.of_nat (m_start m)) (Z.of_nat (m_end m))
               default_context_chars)
            (round_rect round2 rect).
Proof.
  unfold doc_hits. rewrite list_elem_of_bind. split.
  - intros (i & (pg & text & m & Hpg & Htext & Hm & Hhit)%elem_of_page_hits & _).
    apply elem_of_match_hits in Hhit as (rects & rect & ? & ? & ? & ?).
    by exists i, pg, text, m, rects, rect.
  - intros (i & pg & text & m & rects & rect & Hpg & Htext & Hm & Hrects & Hrect & Ht & Ho).
    exists i. split.
    + apply elem_of_page_hits. exists pg, text, m. split_and!; try done.
      apply elem_of_match_hits. by exists rects, rect.
    + apply elem_of_seq. apply lookup_lt_Some in Hpg. unfold doc_len. lia.
Qed.

(** The list kept under each key of a returned index is the list of the
    occurrences that the pages give for this key: for each page in turn, for
    each match on it from left to right, one occurrence for each rectangle of
    its search, in the order of the search.  A key without any occurrence is
    not in the index. *)
Theorem index_holds_hits path w idx w' doc tag :
  extract_tags_from_pdf round2 path w = (Ok idx, w') →
  files w !! PosixPath.absolute (cwd w) path = Some (PdfFile doc) →
  tags idx !! tag = nonempty (occurrences_of tag (doc_hits round2 doc)).
Proof.
  intros (doc' & acc & Hfile & Hscan & -> & _)%extract_ok_inv Hdoc. simpl.
  assert (doc' = doc) as -> by congruence.
  by apply scan_lookup_hits.
Qed.

(** An occurrence is listed under a key of a returned index exactly when
    some page has a match whose upper-cased text is the key and the search
    for the matched text on that page returns a rectangle, the occurrence
    having the number of the page plus one, the snippet of the match and the
    rounded rectangle. *)
Theorem occurrence_listed_iff path w idx w' doc tag o :
  extract_tags_from_pdf round2 path w = (Ok idx, w') →
  files w !! PosixPath.absolute (cwd w) path = Some (PdfFile doc) →
  (∃ l, tags idx !! tag = Some l ∧ o ∈ l) ↔
  ∃ i pg text m rects rect,
    doc_pages doc !! i = Some (Ok pg) ∧ get_text pg = Ok text
    ∧ m ∈ finditer text
    ∧ search_for pg (group0 m) = Ok rects ∧ rect ∈ rects
    ∧ tag = upper (group1 m)
    ∧ o = mkOccurrence (i + 1)
            (extract_snippet text (Z.of_nat (m_start m)) (Z.of_nat (m_end m))
               default_context_chars)
            (round_rect round2 rect).
Proof.
  intros (doc' & acc & Hfile & Hscan & -> & _)%extract_ok_inv Hdoc. simpl.
  assert (doc' = doc) as -> by congruence.
  rewrite <- elem_of_doc_hits, <- elem_of_occurrences_of.
  rewrite (scan_lookup_hits round2 doc _ acc Hscan tag).
  fold (doc_hits round2 doc).
  destruct (occurrences_of tag (doc_hits round2 doc)) as [|o' l'] eqn:Hl; simpl.
  - split; [by intros (? & ? & _)|by intros ?%elem_of_nil].
  - split; [by intros (? & [= <-] & ?)|eauto].
Qed.

(** No key of a returned index holds an empty list. *)
Theorem tag_lists_nonempty path w idx w' tag l :
  extract_tags_from_pdf round2 path w = (Ok idx, w') →
  tags idx !! tag = Some l → l ≠ [].
Proof.
  intros (doc & acc & _ & Hscan & -> & _)%extract_ok_inv. simpl.
  rewrite (scan_lookup_hits round2 doc _ acc Hscan tag).
  destruct (occurrences_of _ _); [done|]. by intros [= <-].
Qed.

(** The occurrences under each key of a returned index come in the order of
    their pages. *)
Theorem tag_lists_in_page_order path w idx w' tag l :
  extract_tags_from_pdf round2 path w = (Ok idx, w') →
  tags idx !! tag = Some l →
  StronglySorted (λ o1 o2, page o1 ≤ page o2) l.
Proof.
  intros (doc & acc & _ & Hscan & -> & _)%extract_ok_inv. simpl.
  rewrite (scan_lookup_hits round2 doc _ acc Hscan tag).
  pose proof (occurrences_in_page_order tag _
                (hits_in_page_order round2 doc 0 (doc_len doc))) as Hsorted.
  destruct (occurrences_of _ _); [done|]. by intros [= <-].
Qed.

(** The number of occurrences of a returned index is the number of
    rectangles returned by the searches, one search for each match on each
    page: a text matched [k] times on a page and found at [r] places there
    counts [k * r] times. *)
Theorem occurrences_count_rectangles path w idx w' doc :
  extract_tags_from_pdf round2 path w = (Ok idx, w') →
  files w !! PosixPath.absolute (cwd w) path = Some (PdfFile doc) →
  total_occurrences (tags idx) = length (doc_hits round2 doc).
Proof.
  intros (doc' & acc & Hfile & Hscan & -> & _)%extract_ok_inv Hdoc. simpl.
  assert (doc' = doc) as -> by congruence.
  by apply scan_total.
Qed.

Lemma extract_world path w :
  let w' := (extract_tags_from_pdf round2 path w).2 in
  files w' = files w ∧ cwd w' = cwd w ∧ writable w' = writable w
  ∧ stderr w' = stderr w ∧ stdout w `prefix_of` stdout w'.
Proof.
  cbv zeta. rewrite extract_unfold.
  destruct (files w !! PosixPath.absolute (cwd w) path) as [[doc| |]|];
    try (split_and!; done).
  cbv zeta. destruct (scan_pages round2 doc (doc_len doc)); simpl.
  - split_and!; try done. rewrite <- app_assoc. by eexists.
  - split_and!; try done. by eexists.
Qed.

(** [extract_tags_from_pdf] never changes a file, the working directory or
    the error stream, and what it prints comes after what was printed; this
    holds whether it returns or raises. *)
Theorem extract_reads_only path w :
  let w' := (extract_tags_from_pdf round2 path w).2 in
  files w' = files w ∧ cwd w' = cwd w ∧ stderr w' = stderr w
  ∧ stdout w `prefix_of` stdout w'.
Proof.
  cbv zeta. destruct (extract_world path w) as (? & ? & ? & ? & ?). by split_and!.
Qed.

(** [extract_tags_from_pdf] returns an index exactly when the path holds a
    PDF and every call to the library made during the scan returns: every
    page loads, gives its text, and the search for every match returns. *)
Theorem extract_returns_iff path w :
  (∃ idx w', extract_tags_from_pdf round2 path w = (Ok idx, w')) ↔
  ∃ doc, files w !! PosixPath.absolute (cwd w) path = Some (PdfFile doc)
         ∧ all_calls_return doc.
Proof.
  split.
  - intros (idx & w' & (doc & acc & Hfile & Hscan & _)%extract_ok_inv).
    exists doc. split; [done|]. apply (scan_returns_iff round2). eauto.
  - intros (doc & Hfile & Hcalls).
    apply (scan_returns_iff round2) in Hcalls as [acc Hscan].
    rewrite extract_unfold, Hfile. cbv zeta. rewrite Hscan. eauto.
Qed.

End IndexContent.

(** ** The program *)

Section Program.

Context {coord : Type} (round2 : coord → coord).

Implicit Types (doc : Document coord) (w : World coord) (idx : Index coord).
Implicit Types (fs : FileSystem coord) (f g : File coord).

(** *** Reading and writing files *)

Lemma fs_lookup_insert fs p q f :
  same_file fs q p → <[p := f]> fs !! q = Some f.
Proof.
  unfold same_file, lookup, insert, fs_lookup, fs_insert. simpl.
  intros ->. apply lookup_insert_eq.
Qed.

Lemma fs_lookup_insert_ne fs p q f :
  ¬ same_file fs q p → <[p := f]> fs !! q = fs !! q.
Proof.
  unfold same_file, lookup, insert, fs_lookup, fs_insert. simpl.
  intros Hne. by apply lookup_insert_ne.
Qed.

Lemma fs_insert_insert fs p f g : <[p := f]> (<[p := g]> fs) = <[p := f]> fs.
Proof.
  unfold insert, fs_insert. simpl. f_equal. apply insert_insert_eq.
Qed.

Lemma extract_returns_iff_aux path w :
  (∃ idx w', extract_tags_from_pdf round2 path w = (Ok idx, w')) ↔
  ∃ doc, files w !! PosixPath.absolute (cwd w) path = Some (PdfFile doc)
         ∧ all_calls_return doc.
Proof.
  split.
  - intros (idx & w' & (doc & acc & Hfile & Hscan & _)%extract_ok_inv).
    exists doc. split; [done|]. apply (scan_returns_iff round2). eauto.
  - intros (doc & Hfile & Hcalls).
    apply (scan_returns_iff round2) in Hcalls as [acc Hscan].
    rewrite extract_unfold, Hfile. cbv zeta. rewrite Hscan. eauto.
Qed.

(** The three ways in which [main] ends. *)
Lemma main_cases args w :
  let target := PosixPath.absolute (cwd w) (arg_output args) in
  let r := main round2 args w in
  match extract_tags_from_pdf round2 (arg_pdf_file args) w with
  | (Ok idx, w1) =>
      if writable w target
      then r.1 = 0 ∧ files r.2 = <[target := IndexFile idx]> (files w)
           ∧ stderr r.2 = stderr w
      else r.1 = 1 ∧ files r.2 = files w
           ∧ stderr r.2 = stderr w ++ ["Error: [Errno 13] Permission denied: '"
                                       +:+ PosixPath.to_str (arg_output args) +:+ "'"]
  | (Raise e, w1) =>
      r.1 = 1 ∧ files r.2 = files w
      ∧ stderr r.2 = stderr w ++ ["Error: " +:+ exn_str e]
  end
  ∧ cwd r.2 = cwd w ∧ writable r.2 = writable w.
Proof.
  cbv zeta. pose proof (extract_world round2 (arg_pdf_file args) w) as Hw.
  cbv zeta in Hw. unfold main, run, bind.
  destruct (extract_tags_from_pdf round2 (arg_pdf_file args) w) as [[idx|e] w1];
    simpl in Hw; destruct Hw as (Hfiles & Hcwd & Hwr & Herr & _).
  - unfold save_index. rewrite Hcwd, Hwr.
    destruct (writable w (PosixPath.absolute (cwd w) (arg_output args)));
      cbn -[String.append pretty]; rewrite ?Hfiles, ?Herr; by split_and!.
  - cbn -[String.append]. rewrite ?Hfiles, ?Herr. by split_and!.
Qed.

(** What [extract_tags_from_pdf] returns or raises depends on the world only
    through what the path holds. *)
Lemma extract_result_congr path w w0 :
  cwd w0 = cwd w →
  files w0 !! PosixPath.absolute (cwd w) path
  = files w !! PosixPath.absolute (cwd w) path →
  (extract_tags_from_pdf round2 path w0).1 = (extract_tags_from_pdf round2 path w).1.
Proof.
  intros Hcwd Hfile. rewrite !extract_unfold, Hcwd, Hfile.
  destruct (files w !! PosixPath.absolute (cwd w) path) as [[doc| |]|]; try done.
  cbv zeta. by destruct (scan_pages round2 doc (doc_len doc)).
Qed.


(** [main] ends with status 0 exactly when the input path holds a PDF, every
    call to the library made during the scan returns, and the output path
    can be written. *)
Theorem main_succeeds_iff args w :
  (main round2 args w).1 = 0 ↔
  (∃ doc, files w !! PosixPath.absolute (cwd w) (arg_pdf_file args)
          = Some (PdfFile doc)
          ∧ all_calls_return doc)
  ∧ writable w (PosixPath.absolute (cwd w) (arg_output args)) = true.
Proof.
  pose proof (main_cases args w) as [Hcases _]. cbv zeta in Hcases.
  rewrite <- (extract_returns_iff_aux (arg_pdf_file args) w).
  destruct (extract_tags_from_pdf round2 (arg_pdf_file args) w) as [[idx|e] w1].
  - destruct (writable w _); destruct Hcases as (Hstatus & _); rewrite Hstatus.
    + split; [eauto|done].
    + split; [done|]. by intros [_ ?].
  - destruct Hcases as (Hstatus & _). rewrite Hstatus.
    split; [done|]. by intros [(? & ? & ?) _].
Qed.

(** A second run with the same arguments, when the output path and the
    input path name different files, ends with status 0 again and leaves
    every file as the first run left it. *)
Theorem main_twice args w :
  (main round2 args w).1 = 0 →
  ¬ same_file (files w) (PosixPath.absolute (cwd w) (arg_pdf_file args))
      (PosixPath.absolute (cwd w) (arg_output args)) →
  let w1 := (main round2 args w).2 in
  (main round2 args w1).1 = 0 ∧ files (main round2 args w1).2 = files w1.
Proof.
  intros Hstatus Hpaths. cbv zeta.
  pose proof (main_cases args w) as (Hcases & Hcwd & Hwr). cbv zeta in *.
  pose proof (main_cases args (main round2 args w).2) as (Hcases1 & _).
  cbv zeta in Hcases1. rewrite Hcwd, Hwr in Hcases1.
  destruct (extract_tags_from_pdf round2 (arg_pdf_file args) w)
    as [[idx|e] w1] eqn:Hrun; [|by destruct Hcases as (H1 & _); rewrite H1 in Hstatus].
  destruct (writable w _); [|by destruct Hcases as (H1 & _); rewrite H1 in Hstatus].
  destruct Hcases as (_ & Hfiles & _).
  pose proof (extract_result_congr (arg_pdf_file args) w (main round2 args w).2 Hcwd)
    as Hsame.
  rewrite Hfiles, fs_lookup_insert_ne, Hrun in Hsame by done. simpl in Hsame.
  destruct (extract_tags_from_pdf round2 (arg_pdf_file args) (main round2 args w).2)
    as [r w2]. simpl in Hsame. rewrite Hsame in Hcases1 by done.
  destruct Hcases1 as (H0 & Hfiles1 & _). split; [done|].
  by rewrite Hfiles1, Hfiles, fs_insert_insert.
Qed.

(** Nothing keeps the output from replacing the input: when the output path
    is the input path and the run ends with status 0, the path holds the
    index afterwards and no PDF, so a second run ends with status 1. *)
Theorem main_overwrites_input args w :
  (main round2 args w).1 = 0 →
  PosixPath.absolute (cwd w) (arg_output args)
  = PosixPath.absolute (cwd w) (arg_pdf_file args) →
  let w1 := (main round2 args w).2 in
  (∃ idx, files w1 !! PosixPath.absolute (cwd w) (arg_pdf_file args)
          = Some (IndexFile idx))
  ∧ (main round2 args w1).1 = 1.
Proof.
  intros Hstatus Hpaths. cbv zeta.
  pose proof (main_cases args w) as (Hcases & Hcwd & Hwr). cbv zeta in *.
  pose proof (main_cases args (main round2 args w).2) as (Hcases1 & _).
  cbv zeta in Hcases1.
  destruct (extract_tags_from_pdf round2 (arg_pdf_file args) w)
    as [[idx|e] w1] eqn:Hrun; [|by destruct Hcases as (H1 & _); rewrite H1 in Hstatus].
  destruct (writable w _); [|by destruct Hcases as (H1 & _); rewrite H1 in Hstatus].
  destruct Hcases as (_ & Hfiles & _).
  assert (files (main round2 args w).2
            !! PosixPath.absolute (cwd w) (arg_pdf_file args)
          = Some (IndexFile idx)) as Hheld.
  { by rewrite Hfiles, Hpaths, fs_lookup_insert. }
  split; [eauto|].
  rewrite extract_unfold, Hcwd, Hheld in Hcases1. by destruct Hcases1 as (H1 & _).
Qed.

(** The same holds when the output path is spelled otherwise than the input
    path and names the same file: after a run that ends with status 0 the
    input path holds the index, and a second run ends with status 1. *)
Theorem main_overwrites_same_file args w :
  (main round2 args w).1 = 0 →
  same_file (files w) (PosixPath.absolute (cwd w) (arg_pdf_file args))
    (PosixPath.absolute (cwd w) (arg_output args)) →
  let w1 := (main round2 args w).2 in
  (∃ idx, (extract_tags_from_pdf round2 (arg_pdf_file args) w).1 = Ok idx
          ∧ files w1 !! PosixPath.absolute (cwd w) (arg_pdf_file args)
            = Some (IndexFile idx))
  ∧ (main round2 args w1).1 = 1.
Proof.
  intros Hstatus Hpaths. cbv zeta.
  pose proof (main_cases args w) as (Hcases & Hcwd & Hwr). cbv zeta in *.
  pose proof (main_cases args (main round2 args w).2) as (Hcases1 & _).
  cbv zeta in Hcases1.
  destruct (extract_tags_from_pdf round2 (arg_pdf_file args) w)
    as [[idx|e] w1] eqn:Hrun; [|by destruct Hcases as (H1 & _); rewrite H1 in Hstatus].
  destruct (writable w _); [|by destruct Hcases as (H1 & _); rewrite H1 in Hstatus].
  destruct Hcases as (_ & Hfiles & _).
  assert (files (main round2 args w).2
            !! PosixPath.absolute (cwd w) (arg_pdf_file args)
          = Some (IndexFile idx)) as Hheld.
  { by rewrite Hfiles, fs_lookup_insert. }
  split; [eauto|].
  rewrite extract_unfold, Hcwd, Hheld in Hcases1. by destruct Hcases1 as (H1 & _).
Qed.

End Program.

(** ** More on snippets *)

Section SnippetFacts.

Local Ltac by_cases c :=
  destruct c as [[] [] [] [] [] [] [] []]; vm_compute; intuition congruence.

Lemma word_not_space c : is_word c = true → is_space c = false.
Proof. by_cases c. Qed.

Lemma space_is_space : is_space " " = true.
Proof. by vm_compute. Qed.

Lemma slash_not_space : is_space slash = false.
Proof. by vm_compute. Qed.

Lemma dot_not_space : is_space "." = false.
Proof. by vm_compute. Qed.

Lemma length_append s t : String.length (s +:+ t) = String.length s + String.length t.
Proof. induction s as [|c s IH]; [done|]. rewrite append_cons. simpl. by rewrite IH. Qed.

Lemma length_substring_le n m s : String.length (String.substring n m s) ≤ m.
Proof.
  revert n m. induction s as [|c s IH]; intros [|n] [|m]; simpl; try lia.
  - specialize (IH 0 m). lia.
  - apply (IH n 0).
  - apply (IH n (S m)).
Qed.

Lemma substring_full s : String.substring 0 (String.length s) s = s.
Proof. induction s as [|c s IH]; [done|]. simpl. by rewrite IH. Qed.

Lemma substring_app n a b s :
  String.substring n (a + b) s
  = String.substring n a s +:+ String.substring (n + a) b s.
Proof.
  revert n a. induction s as [|c s IH]; intros n a.
  - destruct n, a, b; done.
  - destruct n as [|n]; simpl.
    + destruct a as [|a]; simpl; [done|]. rewrite append_cons. f_equal. apply (IH 0 a).
    + apply IH.
Qed.

(** *** Length *)

Lemma length_squeeze started pending s :
  String.length (squeeze started pending s)
  ≤ String.length s + (if pending then 1 else 0).
Proof.
  revert started pending. induction s as [|c s IH]; intros started pending; simpl.
  - lia.
  - destruct (is_space c).
    + specialize (IH started started). destruct started, pending; lia.
    + specialize (IH true false). simpl in IH. destruct pending; simpl; lia.
Qed.

Lemma length_collapse s : String.length (collapse s) ≤ String.length s.
Proof.
  pose proof (length_squeeze false false s) as Hlen. simpl in Hlen.
  unfold collapse. lia.
Qed.

Lemma length_slice text a b :
  (0 ≤ a)%Z → (0 ≤ b)%Z →
  (Z.of_nat (String.length (slice text a b)) ≤ Z.max 0 (b - a))%Z.
Proof.
  intros Ha Hb. unfold slice, slice_index.
  pose proof (length_substring_le
                (Z.to_nat (Z.max 0 (Z.min (len text) (if (a <? 0)%Z then (a + len text)%Z else a))))
                (Z.to_nat (Z.max 0 (Z.min (len text) (if (b <? 0)%Z then (b + len text)%Z else b))
                           - Z.max 0 (Z.min (len text) (if (a <? 0)%Z then (a + len text)%Z else a))))
                text) as Hlen.
  destruct (Z.ltb_spec a 0), (Z.ltb_spec b 0); try lia.
Qed.

(** *** Tidiness *)

Lemma tidy_after_weaken s : tidy_after true s = true → tidy_after false s = true.
Proof.
  destruct s as [|c s]; [done|]. simpl.
  destruct (is_space c); [|done]. by rewrite andb_false_r.
Qed.

Lemma tidy_after_app b s t :
  tidy_after b s = true → tidy_after false t = true → tidy_after b (s +:+ t) = true.
Proof.
  revert b. induction s as [|c s IH]; intros b Hs Ht.
  - simpl in Hs. by destruct b.
  - rewrite append_cons. simpl in *. destruct (is_space c).
    + apply andb_true_iff in Hs as [Hc Hs]. rewrite Hc. simpl. by apply IH.
    + by apply IH.
Qed.

Lemma tidy_squeeze_started pending s :
  tidy_after false (squeeze true pending s) = true.
Proof.
  revert pending. induction s as [|c s IH]; intros pending; [done|]. simpl.
  destruct (is_space c) eqn:Hc; [apply IH|].
  destruct pending; simpl; rewrite ?space_is_space, Hc; simpl; apply IH.
Qed.

Lemma tidy_collapse s : tidy (collapse s) = true.
Proof.
  unfold collapse. induction s as [|c s IH]; [done|]. simpl.
  destruct (is_space c) eqn:Hc; [done|].
  simpl. rewrite Hc. apply tidy_squeeze_started.
Qed.

Lemma tidy_between_ellipses (pre body suf : string) :
  pre = "..." ∨ pre = "" → suf = "..." ∨ suf = "" →
  tidy body = true → tidy (pre +:+ body +:+ suf) = true.
Proof.
  intros Hpre Hsuf Hbody.
  assert (tidy_after false suf = true) as Hsuf' by (by destruct Hsuf as [-> | ->]).
  destruct body as [|c body].
  - by destruct Hpre as [-> | ->], Hsuf as [-> | ->].
  - assert (tidy_after true (String c body +:+ suf) = true) as Hrest.
    { by apply tidy_after_app. }
    destruct Hpre as [-> | ->]; [|done].
    change (tidy_after true ("..." +:+ String c body +:+ suf) = true).
    apply tidy_after_app; [done|]. by apply tidy_after_weaken.
Qed.

(** *** The match inside its snippet *)

Lemma squeeze_solid t rest :
  no_space t = true →
  squeeze true false (t +:+ rest) = t +:+ squeeze true false rest.
Proof.
  unfold no_space, all_chars. induction t as [|c t IH]; [done|]. simpl.
  intros [Hc Ht]%andb_true_iff. rewrite append_cons. simpl.
  destruct (is_space c); [done|]. by rewrite IH.
Qed.

Lemma squeeze_keeps started pending before t rest :
  no_space t = true → t ≠ "" →
  occurs_in t (squeeze started pending (before +:+ t +:+ rest)).
Proof.
  intros Ht Hne. revert started pending.
  induction before as [|c before IH]; intros started pending.
  - destruct t as [|c t]; [done|]. change ("" +:+ ?x) with x.
    rewrite append_cons. simpl.
    assert (is_space c = false ∧ no_space t = true) as [Hc Ht'].
    { unfold no_space, all_chars in *. simpl in Ht.
      apply andb_true_iff in Ht as [Hc ?]. by destruct (is_space c). }
    rewrite Hc, squeeze_solid by done.
    destruct pending.
    + by exists " ", (squeeze true false rest).
    + by exists "", (squeeze true false rest).
  - rewrite append_cons. simpl. destruct (is_space c); [apply IH|].
    destruct (IH true false) as (pre & post & ->).
    destruct pending.
    + by exists (String " " (String c pre)), post.
    + by exists (String c pre), post.
Qed.

Lemma occurs_in_between pre suf t s :
  occurs_in t s → occurs_in t (pre +:+ s +:+ suf).
Proof.
  intros (a & b & ->). exists (pre +:+ a), (b +:+ suf).
  by rewrite !append_assoc.
Qed.

Lemma substring_three a i j e s :
  a ≤ i ≤ j → j ≤ e →
  String.substring a (e - a) s
  = String.substring a (i - a) s +:+ String.substring i (j - i) s
    +:+ String.substring j (e - j) s.
Proof.
  intros Hai Hje.
  replace (e - a) with ((i - a) + ((j - i) + (e - j))) by lia.
  rewrite !substring_app.
  replace (a + (i - a)) with i by lia. by replace (i + (j - i)) with j by lia.
Qed.

Lemma tag_no_space s : tag_shape s = true → no_space s = true ∧ s ≠ "".
Proof.
  intros Hshape. destruct (tag_shape_length _ Hshape) as [Hlen|Hlen].
  - do 8 (destruct s as [|? s]; [done|]). destruct s; [|done].
    apply tag_shape_8 in Hshape. destruct_and!. subst. split; [|done].
    unfold no_space, all_chars. simpl.
    rewrite slash_not_space, !word_not_space
      by auto using digit_is_word, letter_is_word. done.
  - do 9 (destruct s as [|? s]; [done|]). destruct s; [|done].
    apply tag_shape_9 in Hshape. destruct_and!. subst. split; [|done].
    unfold no_space, all_chars. simpl.
    rewrite slash_not_space, !word_not_space
      by auto using digit_is_word, letter_is_word. done.
Qed.

(** *** Tokens and single spaces *)

Lemma split_solid t rest :
  no_space t = true → t ≠ "" →
  match rest with EmptyString => True | String c _ => is_space c = true end →
  split (t +:+ rest) = t :: split rest.
Proof.
  unfold no_space, all_chars. induction t as [|c t IH]; [done|].
  intros Ht _ Hrest. simpl in Ht. apply andb_true_iff in Ht as [Hc Ht].
  assert (is_space c = false) as Hc' by (by destruct (is_space c)).
  rewrite append_cons, split_cons, Hc'. destruct t as [|c' t].
  - change ("" +:+ rest) with rest. destruct rest as [|c' rest]; [done|].
    by rewrite Hrest.
  - rewrite append_cons. simpl in Ht. apply andb_true_iff in Ht as [Hc2 Ht].
    assert (is_space c' = false) as -> by (by destruct (is_space c')).
    rewrite <- append_cons, IH; [done| |done|done].
    simpl. by rewrite Hc2.
Qed.

Lemma split_join ts :
  Forall (λ t, t ≠ "" ∧ no_space t = true) ts → split (join " " ts) = ts.
Proof.
  induction 1 as [|t ts [Hne Ht] Hts IH]; [done|].
  destruct ts as [|t' ts].
  - change (join " " [t]) with t.
    replace (split t) with (split (t +:+ "")) by (by rewrite append_nil_r).
    by rewrite split_solid.
  - change (join " " (t :: t' :: ts)) with (t +:+ " " +:+ join " " (t' :: ts)).
    rewrite split_solid; [|done|done|by vm_compute].
    change (" " +:+ ?x) with (String " " x).
    by rewrite split_cons, space_is_space, IH.
Qed.

End SnippetFacts.

Lemma length_extract_snippet (text : string) (start end_ context_chars : Z) :
  (0 ≤ end_)%Z → (0 ≤ context_chars)%Z →
  (Z.of_nat (String.length (extract_snippet text start end_ context_chars))
   ≤ Z.max 0 (end_ - start + 2 * context_chars) + 6)%Z.
Proof.
  intros Hend Hctx. rewrite extract_snippet_parts, !length_append.
  rewrite join_split_collapse.
  pose proof (length_collapse
                (slice text (window_start start context_chars)
                   (window_end text end_ context_chars))) as Hbody.
  pose proof (length_slice text (window_start start context_chars)
                (window_end text end_ context_chars)) as Hslice.
  unfold window_start, window_end, len in *.
  destruct (0 <? _)%Z, (_ <? Z.of_nat (String.length text))%Z; simpl; lia.
Qed.

(** The snippet is never longer than the match, the context on both sides
    and the two ellipses: for offsets and a context that are not negative,
    at most [end - start + 2 * context_chars + 6] characters. *)
Theorem snippet_length_bound (text : string) (start end_ context_chars : Z) :
  (0 ≤ end_)%Z → (0 ≤ context_chars)%Z →
  (Z.of_nat (String.length (extract_snippet text start end_ context_chars))
   ≤ Z.max 0 (end_ - start + 2 * context_chars) + 6)%Z.
Proof. apply length_extract_snippet. Qed.

Lemma tidy_extract_snippet (text : string) (start end_ context_chars : Z) :
  tidy (extract_snippet text start end_ context_chars) = true.
Proof.
  rewrite extract_snippet_parts, join_split_collapse.
  apply tidy_between_ellipses; [by destruct (0 <? _)%Z; auto
                               |by destruct (_ <? _)%Z; auto
                               |apply tidy_collapse].
Qed.

(** Whatever the text and the offsets, the snippet is on one line: each of
    its whitespace characters is a single space between two other
    characters. *)
Theorem snippet_is_tidy (text : string) (start end_ context_chars : Z) :
  tidy (extract_snippet text start end_ context_chars) = true.
Proof. apply tidy_extract_snippet. Qed.

Lemma match_occurs_in_snippet (text : string) (m : Match) :
  m ∈ finditer text →
  occurs_in (group0 m)
    (extract_snippet text (Z.of_nat (m_start m)) (Z.of_nat (m_end m))
       default_context_chars).
Proof.
  intros ((Hij & Hshape & _) & Htext)%finditer_spec.
  destruct (tag_no_space _ Hshape) as [Hsolid Hne].
  rewrite extract_snippet_parts. apply occurs_in_between.
  rewrite join_split_collapse, slice_chars_between
    by (unfold window_start, window_end, default_context_chars, len; lia).
  unfold chars_between, group0. rewrite Htext.
  set (a := Z.to_nat (window_start (Z.of_nat (m_start m)) default_context_chars)).
  set (e := Z.to_nat (window_end text (Z.of_nat (m_end m)) default_context_chars)).
  replace (Z.to_nat (window_end text (Z.of_nat (m_end m)) default_context_chars
                     - window_start (Z.of_nat (m_start m)) default_context_chars))
    with (e - a)
    by (subst a e; unfold window_start, window_end, default_context_chars, len; lia).
  rewrite (substring_three a (m_start m) (m_end m) e)
    by (subst a e; unfold window_start, window_end, default_context_chars, len; lia).
  by apply squeeze_keeps.
Qed.

(** The snippet made for a match of the pattern shows the matched text. *)
Theorem snippet_shows_match (text : string) (m : Match) :
  m ∈ finditer text →
  occurs_in (group0 m)
    (extract_snippet text (Z.of_nat (m_start m)) (Z.of_nat (m_end m))
       default_context_chars).
Proof. apply match_occurs_in_snippet. Qed.

(** When the match has at most [context_chars] characters before it and
    after it, the snippet is the whole text, trimmed and collapsed, without
    ellipsis. *)
Theorem snippet_of_short_text (text : string) (start end_ context_chars : Z) :
  (start ≤ context_chars)%Z → (len text ≤ end_ + context_chars)%Z →
  extract_snippet text start end_ context_chars = collapse text.
Proof.
  intros Hstart Hend. rewrite extract_snippet_parts, join_split_collapse.
  unfold window_start, window_end.
  rewrite Z.max_l, Z.min_l by lia.
  rewrite !Z.ltb_irrefl. change ("" +:+ ?x) with x. rewrite append_nil_r.
  unfold slice, slice_index, len.
  destruct (Z.ltb_spec (Z.of_nat (String.length text)) 0); [lia|].
  replace (0 <? 0)%Z with false by done.
  replace (Z.max 0 (Z.min (Z.of_nat (String.length text)) 0)) with 0%Z by lia.
  replace (Z.max 0 (Z.min (Z.of_nat (String.length text))
                      (Z.of_nat (String.length text))))
    with (Z.of_nat (String.length text)) by lia.
  rewrite Z.sub_0_r, Nat2Z.id. by rewrite substring_full.
Qed.

(** The tokens of a snippet body are the tokens it was joined from, so
    trimming, splitting and joining a second time changes nothing. *)
Theorem normalising_twice (s : string) :
  split (join " " (split (strip s))) = split s
  ∧ join " " (split (strip (join " " (split (strip s)))))
    = join " " (split (strip s)).
Proof.
  assert (split (join " " (split s)) = split s) as Hsplit.
  { apply split_join, split_tokens. }
  by rewrite !split_strip, Hsplit.
Qed.


(** ** The matches of a text *)

Lemma match_here_length b s n : match_here b s = Some n → n = 8 ∨ n = 9.
Proof.
  intros (_ & Hn & Hshape%tag_shape_length & _)%match_here_iff.
  by rewrite length_substring_0 in Hshape.
Qed.

Lemma scan_ordered s before pos skip :
  StronglySorted (λ m1 m2, m_end m1 ≤ m_start m2) (scan before pos skip s)
  ∧ Forall (λ m, pos + skip ≤ m_start m) (scan before pos skip s).
Proof.
  revert before pos skip. induction s as [|c s IH]; intros before pos skip.
  - split; constructor.
  - cbn [scan]. destruct skip as [|k].
    + destruct (match_here before (String c s)) as [n|] eqn:Hm.
      * destruct (IH (is_word c) (S pos) (n - 1)) as [Hsorted Hfrom].
        apply match_here_length in Hm.
        split; constructor; simpl; try done; try lia.
        -- eapply Forall_impl; [exact Hfrom|]. simpl. lia.
        -- eapply Forall_impl; [exact Hfrom|]. simpl. lia.
      * destruct (IH (is_word c) (S pos) 0) as [Hsorted Hfrom].
        split; [done|]. eapply Forall_impl; [exact Hfrom|]. simpl. lia.
    + destruct (IH (is_word c) (S pos) k) as [Hsorted Hfrom].
      split; [done|]. eapply Forall_impl; [exact Hfrom|]. simpl. lia.
Qed.

Lemma finditer_bounds text m :
  m ∈ finditer text →
  (m_end m = m_start m + 8 ∨ m_end m = m_start m + 9)
  ∧ m_end m ≤ String.length text.
Proof.
  intros ((Hij & Hshape%tag_shape_length & _) & _)%finditer_spec.
  rewrite substring_sdrop, length_substring_0 in Hshape
    by (rewrite length_sdrop; lia).
  lia.
Qed.

(** The matches of the pattern in a text come from left to right without
    overlapping; each is 8 or 9 characters long and lies inside the text. *)
Theorem finditer_ordered (text : string) :
  StronglySorted (λ m1 m2, m_end m1 ≤ m_start m2) (finditer text)
  ∧ Forall (λ m, (m_end m = m_start m + 8 ∨ m_end m = m_start m + 9)
                 ∧ m_end m ≤ String.length text) (finditer text).
Proof.
  split; [apply scan_ordered|]. apply Forall_forall. apply finditer_bounds.
Qed.

Section IndexSnippets.

Context {coord : Type} (round2 : coord → coord).

(** In a returned index every snippet has at most 115 characters, is on one
    line with single spaces, and shows a text whose upper case is the key it
    is listed under. *)
Theorem index_snippets_wellformed path (w : World coord) idx w' tag l o :
  extract_tags_from_pdf round2 path w = (Ok idx, w') →
  tags idx !! tag = Some l → o ∈ l →
  String.length (snippet o) ≤ 115
  ∧ tidy (snippet o) = true
  ∧ ∃ t, occurs_in t (snippet o) ∧ upper t = tag.
Proof.
  intros (doc & acc & _ & Hscan & -> & _)%extract_ok_inv Hl Ho. simpl in Hl.
  rewrite (scan_lookup_hits round2 doc _ acc Hscan tag) in Hl.
  fold (doc_hits round2 doc) in Hl.
  assert ((tag, o) ∈ doc_hits round2 doc) as Hhit.
  { apply elem_of_occurrences_of. destruct (occurrences_of _ _); [done|].
    by injection Hl as <-. }
  apply elem_of_doc_hits in Hhit
    as (i & pg & text & m & rects & rect & _ & _ & Hm & _ & _ & -> & ->).
  simpl. split_and!.
  - pose proof (finditer_bounds text m Hm) as [Hlen _].
    pose proof (length_extract_snippet text (Z.of_nat (m_start m))
                  (Z.of_nat (m_end m)) default_context_chars) as Hbound.
    unfold default_context_chars in *. lia.
  - apply tidy_extract_snippet.
  - exists (group0 m). split; [by apply match_occurs_in_snippet|done].
Qed.

End IndexSnippets.

(** ** Pages that fail *)

Section FailingPages.

Context {coord : Type} (round2 : coord → coord).

Implicit Types (doc : Document coord) (w : World coord).

(** A loop stops at the first item at which its body raises. *)
Lemma for_each_raise {A B} (body : A → B → result A) before b after a e :
  (∀ b' a0, b' ∈ before → ∃ a1, body a0 b' = Ok a1) →
  (∀ a0, body a0 b = Raise e) →
  for_each body (before ++ b :: after) a = Raise e.
Proof.
  intros Hbefore Hb. revert a.
  induction before as [|b' before IH]; intros a; simpl.
  - by rewrite Hb.
  - destruct (Hbefore b' a) as [a1 ->]; [by left|]. simpl.
    apply IH. intros b'' a0 ?. apply Hbefore. by right.
Qed.

Lemma page_body_returns doc i acc :
  page_returns doc i → ∃ acc', page_body round2 doc acc i = Ok acc'.
Proof.
  intros (pg & text & Hpg & Htext & Hms).
  destruct (for_each_returns (match_body round2 pg text i) (finditer text) acc)
    as [acc' Hacc'].
  { intros m a Hm. destruct (Hms m Hm) as [rects Hrects].
    eexists. apply match_body_ok. eauto. }
  exists acc'. apply page_body_ok. by exists pg, text.
Qed.

Lemma page_body_raises doc i e acc :
  page_raises doc i e → page_body round2 doc acc i = Raise e.
Proof.
  unfold page_body, load_page, rbind.
  intros [-> | (pg & -> & ->)]; done.
Qed.

Lemma scan_first_failure doc i e :
  (∀ j, j < i → page_returns doc j) → page_raises doc i e →
  scan_pages round2 doc (doc_len doc) = Raise e.
Proof.
  intros Hbefore Hraise. unfold scan_pages.
  assert (i < doc_len doc) as Hi.
  { unfold doc_len. destruct Hraise as [Hl | (pg & Hl & _)];
      by apply lookup_lt_Some in Hl. }
  replace (doc_len doc) with (i + S (doc_len doc - S i)) by lia.
  rewrite seq_app. simpl.
  apply for_each_raise.
  - intros j a Hj%elem_of_seq. apply page_body_returns, Hbefore. lia.
  - intros a. by apply page_body_raises.
Qed.

(** When the pages before page [i] can be read and page [i] raises, at its
    loading or at the extraction of its text, the scan stops there:
    [extract_tags_from_pdf] raises this exception, whatever the later pages
    hold, and the program reports its message after [Error: ] and ends with
    status 1 without writing a file. *)
Theorem first_failing_page_reported args w doc i e :
  files w !! PosixPath.absolute (cwd w) (arg_pdf_file args) = Some (PdfFile doc) →
  (∀ j, j < i → page_returns doc j) →
  page_raises doc i e →
  (extract_tags_from_pdf round2 (arg_pdf_file args) w).1 = Raise e
  ∧ (main round2 args w).1 = 1
  ∧ stderr (main round2 args w).2 = stderr w ++ ["Error: " +:+ exn_str e]
  ∧ files (main round2 args w).2 = files w.
Proof.
  intros Hfile Hbefore Hraise.
  pose proof (scan_first_failure doc i e Hbefore Hraise) as Hscan.
  pose proof (main_cases round2 args w) as [Hcases _]. cbv zeta in Hcases.
  rewrite extract_unfold, Hfile in *. cbv zeta in *. rewrite Hscan in *.
  by destruct Hcases as (? & ? & ?).
Qed.

End FailingPages.

(** The document whose second page cannot be read. *)
Lemma first_failing_page_reported_witness :
  (extract_tags_from_pdf two_decimals "damaged.pdf" Damaged.world).1
    = Raise (OtherError "cannot read page")
  ∧ (main two_decimals Damaged.args Damaged.world).1 = 1
  ∧ stderr (main two_decimals Damaged.args Damaged.world).2
    = stderr Damaged.world ++ ["Error: " +:+ exn_str (OtherError "cannot read page")]
  ∧ files (main two_decimals Damaged.args Damaged.world).2 = files Damaged.world.
Proof.
  apply (first_failing_page_reported two_decimals Damaged.args Damaged.world
           Damaged.doc 1 (OtherError "cannot read page")).
  - vm_compute. reflexivity.
  - intros j Hj. assert (j = 0) as -> by lia.
    exists Damaged.page1, "see detail 01/AC501 for more".
    split_and!; [reflexivity..|]. intros m _. eexists. reflexivity.
  - right. exists Damaged.page2. split; reflexivity.
Defined.

(** ** The further properties on the sample documents *)

(** The list kept for ["01/AC501"] in the scenario. *)
Lemma index_holds_hits_witness :
  tags Scenario.index !! "01/AC501"
  = nonempty (occurrences_of "01/AC501" (doc_hits two_decimals Scenario.doc)).
Proof.
  apply (index_holds_hits two_decimals "set.pdf" Scenario.world Scenario.index
           Scenario.after Scenario.doc "01/AC501").
  - exact scenario_run.
  - vm_compute. reflexivity.
Defined.

(** The occurrence of ["03/AC602"] in the scenario and where it comes from. *)
Lemma occurrence_listed_iff_witness :
  ∃ l, tags Scenario.index !! "03/AC602" = Some l
       ∧ Scenario.occ 3 "01/AC501 03/AC602 01/AC501" 13500 ∈ l.
Proof.
  apply (occurrence_listed_iff two_decimals "set.pdf" Scenario.world Scenario.index
           Scenario.after Scenario.doc "03/AC602"
           (Scenario.occ 3 "01/AC501 03/AC602 01/AC501" 13500)).
  - exact scenario_run.
  - vm_compute. reflexivity.
  - exists 2, Scenario.page3, "01/AC501 03/AC602 01/AC501",
      (mkMatch 9 17 "03/AC602"), [rect_at 13500 10000], (rect_at 13500 10000).
    split_and!; try (vm_compute; reflexivity).
    + assert (finditer "01/AC501 03/AC602 01/AC501"
              = [mkMatch 0 8 "01/AC501"; mkMatch 9 17 "03/AC602";
                 mkMatch 18 26 "01/AC501"]) as -> by (vm_compute; reflexivity).
      apply elem_of_cons. right. apply elem_of_cons. by left.
    + apply elem_of_cons. by left.
Defined.

(** The list of ["03/AC602"] in the scenario is not empty. *)
Lemma tag_lists_nonempty_witness :
  [Scenario.occ 3 "01/AC501 03/AC602 01/AC501" 13500] ≠ [].
Proof.
  apply (tag_lists_nonempty two_decimals "set.pdf" Scenario.world Scenario.index
           Scenario.after "03/AC602").
  - exact scenario_run.
  - vm_compute. reflexivity.
Defined.

(** The pages of the occurrences of ["01/AC501"] in the scenario. *)
Lemma tag_lists_in_page_order_witness :
  StronglySorted (λ o1 o2 : Occurrence Z, page o1 ≤ page o2)
    [ Scenario.occ 1 "see detail 01/AC501 for more" 7200;
      Scenario.occ 3 "01/AC501 03/AC602 01/AC501" 7200;
      Scenario.occ 3 "01/AC501 03/AC602 01/AC501" 19800;
      Scenario.occ 3 "01/AC501 03/AC602 01/AC501" 7200;
      Scenario.occ 3 "01/AC501 03/AC602 01/AC501" 19800 ].
Proof.
  apply (tag_lists_in_page_order two_decimals "set.pdf" Scenario.world
           Scenario.index Scenario.after "01/AC501").
  - exact scenario_run.
  - vm_compute. reflexivity.
Defined.

(** The six occurrences of the scenario. *)
Lemma occurrences_count_rectangles_witness :
  total_occurrences (tags Scenario.index)
  = length (doc_hits two_decimals Scenario.doc).
Proof.
  apply (occurrences_count_rectangles two_decimals "set.pdf" Scenario.world
           Scenario.index Scenario.after Scenario.doc).
  - exact scenario_run.
  - vm_compute. reflexivity.
Defined.

(** The scenario is a PDF all of whose calls return. *)
Lemma extract_returns_iff_witness :
  ∃ doc, files Scenario.world !! PosixPath.absolute (cwd Scenario.world) "set.pdf"
         = Some (PdfFile doc)
         ∧ all_calls_return doc.
Proof.
  apply (extract_returns_iff two_decimals "set.pdf" Scenario.world).
  exists Scenario.index, Scenario.after. exact scenario_run.
Defined.

(** The program on the scenario. *)
Lemma main_succeeds_iff_witness :
  (∃ doc, files Scenario.world
            !! PosixPath.absolute (cwd Scenario.world) (arg_pdf_file scenario_args)
          = Some (PdfFile doc)
          ∧ all_calls_return doc)
  ∧ writable Scenario.world
      (PosixPath.absolute (cwd Scenario.world) (arg_output scenario_args)) = true.
Proof.
  apply (main_succeeds_iff two_decimals scenario_args Scenario.world).
  vm_compute. reflexivity.
Defined.

(** Two runs on the scenario. *)
Lemma main_twice_witness :
  (main two_decimals scenario_args
     (main two_decimals scenario_args Scenario.world).2).1 = 0
  ∧ files (main two_decimals scenario_args
             (main two_decimals scenario_args Scenario.world).2).2
    = files (main two_decimals scenario_args Scenario.world).2.
Proof.
  apply (main_twice two_decimals scenario_args Scenario.world).
  - vm_compute. reflexivity.
  - vm_compute. discriminate.
Defined.

(** The index written over the PDF of the scenario through another path. *)
Lemma main_overwrites_same_file_witness :
  (∃ idx, (extract_tags_from_pdf two_decimals "set.pdf" Aliased.world).1 = Ok idx
          ∧ files (main two_decimals Aliased.args Aliased.world).2
              !! "/plans/set.pdf" = Some (IndexFile idx))
  ∧ (main two_decimals Aliased.args
       (main two_decimals Aliased.args Aliased.world).2).1 = 1.
Proof.
  apply (main_overwrites_same_file two_decimals Aliased.args Aliased.world).
  - vm_compute. reflexivity.
  - vm_compute. reflexivity.
Defined.

(** The index written over the PDF of the scenario. *)
Lemma main_overwrites_input_witness :
  (∃ idx, files (main two_decimals overwriting_args Scenario.world).2
            !! PosixPath.absolute (cwd Scenario.world) (arg_pdf_file overwriting_args)
          = Some (IndexFile idx))
  ∧ (main two_decimals overwriting_args
       (main two_decimals overwriting_args Scenario.world).2).1 = 1.
Proof.
  apply (main_overwrites_input two_decimals overwriting_args Scenario.world).
  - vm_compute. reflexivity.
  - vm_compute. reflexivity.
Defined.

(** The snippet of the sample text of 200 characters. *)
Lemma snippet_length_bound_witness :
  (Z.of_nat (String.length (extract_snippet text200 100 108 50))
   ≤ Z.max 0 (108 - 100 + 2 * 50) + 6)%Z.
Proof. apply (snippet_length_bound text200 100 108 50); lia. Defined.

(** The tag of the first page of the scenario in its snippet. *)
Lemma snippet_shows_match_witness :
  occurs_in "01/AC501"
    (extract_snippet "see detail 01/AC501 for more" 11 19 default_context_chars).
Proof.
  apply (snippet_shows_match "see detail 01/AC501 for more" (mkMatch 11 19 "01/AC501")).
  assert (finditer "see detail 01/AC501 for more" = [mkMatch 11 19 "01/AC501"])
    as -> by (vm_compute; reflexivity).
  constructor.
Defined.

(** The text of the first page of the scenario is its own snippet. *)
Lemma snippet_of_short_text_witness :
  extract_snippet "see detail 01/AC501 for more" 11 19 50
  = collapse "see detail 01/AC501 for more".
Proof.
  apply (snippet_of_short_text "see detail 01/AC501 for more" 11 19 50).
  - lia.
  - vm_compute. discriminate.
Defined.

(** The snippet of the occurrence of ["03/AC602"] in the scenario. *)
Lemma index_snippets_wellformed_witness :
  String.length "01/AC501 03/AC602 01/AC501" ≤ 115
  ∧ tidy "01/AC501 03/AC602 01/AC501" = true
  ∧ ∃ t, occurs_in t "01/AC501 03/AC602 01/AC501" ∧ upper t = "03/AC602".
Proof.
  apply (index_snippets_wellformed two_decimals "set.pdf" Scenario.world
           Scenario.index Scenario.after "03/AC602"
           [Scenario.occ 3 "01/AC501 03/AC602 01/AC501" 13500]
           (Scenario.occ 3 "01/AC501 03/AC602 01/AC501" 13500)).
  - exact scenario_run.
  - vm_compute. reflexivity.
  - constructor.
Defined.
